(** * ftb-modpack-downloader: the [Request] retry session and [safe_print]

    A shallow embedding of [utils.py]: the [Request] class
    ([__init__], [make_get_request], [handle_get_request]),
    [get_random_useragent] and [safe_print].

    The network, the console and the clock are observed through an event
    trace.  Python exceptions are results of the computation, and a raise
    keeps every effect performed before it (the trace, the fields of [self]
    and the local variables of the running frame). *)

From Stdlib Require Import ZArith List String Bool Lia QArith.
Import ListNotations.

Local Open Scope string_scope.
Local Open Scope Z_scope.

(** ** The parts of the [requests] library the code relies on *)

Module Requests.

(** The exception classes of [requests.exceptions]. *)
Inductive ExcClass : Type :=
| RequestException
| HTTPError
| ConnectionError
| ProxyError
| SSLError
| Timeout
| ConnectTimeout
| ReadTimeout
| TooManyRedirects
| InvalidURL
| ChunkedEncodingError
| ContentDecodingError.

Definition ExcClass_eqb (a b : ExcClass) : bool :=
  match a, b with
  | RequestException, RequestException
  | HTTPError, HTTPError
  | ConnectionError, ConnectionError
  | ProxyError, ProxyError
  | SSLError, SSLError
  | Timeout, Timeout
  | ConnectTimeout, ConnectTimeout
  | ReadTimeout, ReadTimeout
  | TooManyRedirects, TooManyRedirects
  | InvalidURL, InvalidURL
  | ChunkedEncodingError, ChunkedEncodingError
  | ContentDecodingError, ContentDecodingError => true
  | _, _ => false
  end.

(** Direct base classes inside the library: [ConnectTimeout] inherits from
    both [ConnectionError] and [Timeout]; [SSLError] and [ProxyError] are
    connection errors; everything derives from [RequestException]. *)
Definition bases (c : ExcClass) : list ExcClass :=
  match c with
  | RequestException => []
  | HTTPError => [RequestException]
  | ConnectionError => [RequestException]
  | ProxyError => [ConnectionError]
  | SSLError => [ConnectionError]
  | Timeout => [RequestException]
  | ConnectTimeout => [ConnectionError; Timeout]
  | ReadTimeout => [Timeout]
  | TooManyRedirects => [RequestException]
  | InvalidURL => [RequestException]
  | ChunkedEncodingError => [RequestException]
  | ContentDecodingError => [RequestException]
  end.

(** [issubclass c d], by walking the bases; the hierarchy has depth 2. *)
Fixpoint issubclass_upto (depth : nat) (c d : ExcClass) : bool :=
  ExcClass_eqb c d ||
  match depth with
  | O => false
  | S k => existsb (fun b => issubclass_upto k b d) (bases c)
  end.

Definition issubclass : ExcClass -> ExcClass -> bool := issubclass_upto 3.

(** A response object: its identity and its [status_code]. *)
Record Response : Type := mkResponse {
  rid : nat;
  status_code : Z
}.

(** [Response.raise_for_status] raises [HTTPError] for a 4XX client error
    or a 5XX server error and does nothing otherwise. *)
Definition is_http_error (status : Z) : bool :=
  ((400 <=? status) && (status <? 500)) || ((500 <=? status) && (status <? 600)).

(** [requests.codes.ok] *)
Definition codes_ok : Z := 200.

End Requests.

Import Requests.

(** ** Python values, exceptions and the observable events *)

(** An exception in flight: one raised by [requests] (class and text), or one
    of the interpreter's own. *)
Inductive PyExc : Type :=
| RequestsExc (cls : ExcClass) (detail : string)
| UnboundLocalError (name : string)
| AttributeError (name : string).

(** A local variable or an attribute is unbound until its first assignment;
    once bound it holds a response object or Python's [None]. *)
Inductive Slot : Type :=
| Unbound
| Bound (v : option Response).

(** What one call of [requests.get] does: it returns a response object or
    raises one of the library's exceptions. *)
Inductive GetOutcome : Type :=
| Responds (r : Response)
| Fails (cls : ExcClass) (detail : string).

Inductive Event : Type :=
| EvGet (url : string) (user_agent : string) (timeout : Z) (verify stream : bool)
| EvSafePrint (message : string)
| EvPrint (message : string)
| EvClose (r : Response)
| EvSleep (seconds : Q).

(** The fields of a [Request] object; [headers] is the value of its single
    entry, the user agent. *)
Record Request : Type := mkRequest {
  status : option Z;
  attempt : Z;
  timeout : Z;
  retry_status : list Z;
  retry_max : Z;
  retry_sleep : Q;
  headers : string;
  url : string;
  stream : bool;
  response : Slot
}.

(** The machine: the object under construction, the network (the outcome of
    the k-th physical request, for every k), the number of requests sent so
    far, and the trace of events in the order they happened. *)
Record World : Type := mkWorld {
  self : Request;
  net : nat -> GetOutcome;
  sent : nat;
  trace : list Event
}.

(** ** A state and exception monad, with a frame of local variables [L] *)

Inductive Res (A : Type) : Type :=
| Val (a : A)
| Exn (e : PyExc).
Arguments Val {A} a.
Arguments Exn {A} e.

Definition M (L A : Type) : Type := World * L -> Res A * (World * L).

Definition ret {L A} (a : A) : M L A := fun s => (Val a, s).

Definition raise {L A} (e : PyExc) : M L A := fun s => (Exn e, s).

Definition bind {L A B} (m : M L A) (k : A -> M L B) : M L B :=
  fun s =>
    match m s with
    | (Val a, s') => k a s'
    | (Exn e, s') => (Exn e, s')
    end.

Declare Scope py_scope.
Delimit Scope py_scope with py.
Notation "x <- m ;; k" := (bind m (fun x => k))
  (at level 61, m at next level, right associativity) : py_scope.
Notation "m ;; k" := (bind m (fun _ => k))
  (at level 61, right associativity) : py_scope.
Local Open Scope py_scope.

Definition get_self {L} : M L Request := fun s => (Val (self (fst s)), s).

Definition set_self {L} (f : Request -> Request) : M L unit :=
  fun '(w, l) => (Val tt, (mkWorld (f (self w)) (net w) (sent w) (trace w), l)).

Definition emit {L} (ev : Event) : M L unit :=
  fun '(w, l) => (Val tt, (mkWorld (self w) (net w) (sent w) (trace w ++ [ev]), l)).

Definition get_local {L} : M L L := fun s => (Val (snd s), s).

Definition set_local {L} (l : L) : M L unit := fun '(w, _) => (Val tt, (w, l)).

(** Calling a method: the callee runs in a frame of its own. *)
Definition call {L L' A} (frame : L') (m : M L' A) : M L A :=
  fun '(w, l) => let '(r, (w', _)) := m (w, frame) in (r, (w', l)).

(** [try: body  except (c1, c2, ...) as e: handler ...]: the first clause one
    of whose classes the exception is an instance of handles it; only
    exceptions of [requests] can match these clauses. *)
Definition Clause (L : Type) : Type := list ExcClass * (string -> M L unit).

Fixpoint select_clause {L} (cls : ExcClass) (clauses : list (Clause L))
  : option (string -> M L unit) :=
  match clauses with
  | [] => None
  | (classes, handler) :: rest =>
      if existsb (issubclass cls) classes then Some handler
      else select_clause cls rest
  end.

Definition try_except {L} (body : M L unit) (clauses : list (Clause L)) : M L unit :=
  fun s =>
    match body s with
    | (Val tt, s') => (Val tt, s')
    | (Exn (RequestsExc cls detail), s') =>
        match select_clause cls clauses with
        | Some handler => handler detail s'
        | None => (Exn (RequestsExc cls detail), s')
        end
    | (Exn e, s') => (Exn e, s')
    end.

(** [try: body  finally: cleanup]: the cleanup always runs; an exception
    raised by the cleanup replaces the one in flight. *)
Definition try_finally {L} (body : M L unit) (cleanup : M L unit) : M L unit :=
  fun s =>
    let '(r, s') := body s in
    match cleanup s' with
    | (Val tt, s'') => (r, s'')
    | (Exn e, s'') => (Exn e, s'')
    end.

(** ** The environment: network, console, clock *)

(** [requests.get(url, headers=..., timeout=..., verify=True, stream=...)] *)
Definition requests_get {L} (url user_agent : string) (timeout : Z)
    (verify stream : bool) : M L Response :=
  fun '(w, l) =>
    let w' := mkWorld (self w) (net w) (S (sent w))
                (trace w ++ [EvGet url user_agent timeout verify stream]) in
    match net w (sent w) with
    | Responds r => (Val r, (w', l))
    | Fails cls detail => (Exn (RequestsExc cls detail), (w', l))
    end.

(** [response.raise_for_status()]; the text of the error is not modelled. *)
Definition raise_for_status {L} (r : Response) : M L unit :=
  if is_http_error (status_code r)
  then raise (RequestsExc HTTPError "HTTPError")
  else ret tt.

(** [response.close()] *)
Definition close {L} (r : Response) : M L unit := emit (EvClose r).

(** [time.sleep(seconds)] *)
Definition time_sleep {L} (seconds : Q) : M L unit := emit (EvSleep seconds).

Definition print {L} (message : string) : M L unit := emit (EvPrint message).

(** Within one thread [safe_print] is a print; its locking is modelled with
    the threads, in [Console] below. *)
Definition safe_print {L} (message : string) : M L unit := emit (EvSafePrint message).

Definition newline : string := String (Ascii.ascii_of_nat 10) EmptyString.

(** Reading a local variable that was never assigned raises. *)
Definition read_local (name : string) : M Slot (option Response) :=
  l <- get_local ;;
  match l with
  | Unbound => raise (UnboundLocalError name)
  | Bound v => ret v
  end.

(** [v.status_code] *)
Definition get_status_code {L} (v : option Response) : M L Z :=
  match v with
  | Some r => ret (status_code r)
  | None => raise (AttributeError "status_code")
  end.

(** ** [get_random_useragent] *)

Definition user_agents : list string :=
  [ "Mozilla/5.0 (X11; Linux x86_64; rv:78.0) Gecko/20100101 Firefox/78.0";
    "Mozilla/5.0 (X11; OpenBSD amd64; rv:78.0) Gecko/20100101 Firefox/78.0";
    "Mozilla/5.0 (X11; Ubuntu; Linux armv7l; rv:78.0) Gecko/20100101 Firefox/78.0";
    "Mozilla/5.0 (X11; FreeBSD i386; rv:78.0) Gecko/20100101 Firefox/78.0";
    "Mozilla/5.0 (X11; Ubuntu; Linux x86_64; rv:78.0) Gecko/20100101 Firefox/78.0";
    "Mozilla/5.0 (X11; Linux aarch64; rv:78.0) Gecko/20100101 Firefox/78.0";
    "Mozilla/5.0 (X11; Ubuntu; Linux i686; rv:78.0) Gecko/20100101 Firefox/78.0";
    "Mozilla/5.0 (Macintosh; Intel Mac OS X 10.10; rv:78.0) Gecko/20100101 Firefox/78.0";
    "Mozilla/5.0 (Macintosh; Intel Mac OS X 10.14; rv:78.0) Gecko/20100101 Firefox/78.0";
    "Mozilla/5.0 (Macintosh; Intel Mac OS X 10_15_4; rv:78.0) Gecko/20100101 Firefox/78.0";
    "Mozilla/5.0 (Intel Mac OS X 10_15_4; rv:78.0) Gecko/20100101 Firefox/78.0";
    "Mozilla/5.0 (Windows NT 6.2; rv:78.0) Gecko/20100101 Firefox/78.0";
    "Mozilla/5.0 (Windows NT 10.0; Win64; x64; rv:78.0) Gecko/20100101 Firefox/78.0";
    "Mozilla/5.0 (Windows NT 6.2; Win64; x64; rv:78.0) Gecko/20100101 Firefox/78.0";
    "Mozilla/5.0 (Windows NT 6.3; Win64; x64; rv:78.0) Gecko/20100101 Firefox/78.0" ].

(** [random.choice] draws an index; [draw] is the number the generator
    yields for this call. *)
Definition get_random_useragent (draw : nat) : string :=
  nth (draw mod List.length user_agents) user_agents "".

(** ** The [Request] class *)

Definition set_status (v : option Z) (r : Request) : Request :=
  mkRequest v (attempt r) (timeout r) (retry_status r) (retry_max r)
    (retry_sleep r) (headers r) (url r) (stream r) (response r).

Definition set_attempt (n : Z) (r : Request) : Request :=
  mkRequest (status r) n (timeout r) (retry_status r) (retry_max r)
    (retry_sleep r) (headers r) (url r) (stream r) (response r).

Definition set_response (v : Slot) (r : Request) : Request :=
  mkRequest (status r) (attempt r) (timeout r) (retry_status r) (retry_max r)
    (retry_sleep r) (headers r) (url r) (stream r) v.

(** The [try] suite of [make_get_request]. *)
Definition make_get_request_try : M Slot unit :=
  self <- get_self ;;
  response <- requests_get (url self) (headers self) (timeout self) true (stream self) ;;
  set_local (Bound (Some response)) ;;
  raise_for_status response.

(** Its [except] clauses, in the order of the source. *)
Definition make_get_request_except : list (Clause Slot) :=
  [ ([Timeout], fun e =>
       safe_print ("Timeout: The request timed out while waiting for the server to respond"
                   ++ newline ++ e) ;;
       set_local (Bound None));
    ([ConnectionError; HTTPError], fun e =>
       response <- read_local "response" ;;
       code <- get_status_code response ;;
       (if code =? 403
        then safe_print "Forbidden: The request was not allowed"
        else safe_print "Error: The requested resource could not be reached") ;;
       print e);
    ([TooManyRedirects], fun e =>
       safe_print ("Error: The request exceeded the number of maximum redirections"
                   ++ newline ++ e));
    ([SSLError], fun e =>
       safe_print ("Error: The SSL certificate could not be verified" ++ newline ++ e));
    ([RequestException], fun e =>
       safe_print ("Encountered an ambiguous error, you're on your own now"
                   ++ newline ++ e)) ].

(** Its [finally] suite. *)
Definition make_get_request_finally : M Slot unit :=
  response <- read_local "response" ;;
  self <- get_self ;;
  match response with
  | Some r => if negb (stream self) then close r else ret tt
  | None => ret tt
  end.

Definition make_get_request : M Slot (option Response) :=
  try_finally
    (try_except make_get_request_try make_get_request_except)
    make_get_request_finally ;;
  read_local "response".

(** [x in xs] on a list of integers; [None] is equal to none of them. *)
Definition status_in (v : option Z) (xs : list Z) : bool :=
  match v with
  | Some n => existsb (fun x => n =? x) xs
  | None => false
  end.

Definition status_is (v : option Z) (n : Z) : bool :=
  match v with
  | Some m => m =? n
  | None => false
  end.

Inductive Ctl : Type := Break | Continue.

(** The body of the [while] loop of [handle_get_request]. *)
Definition handle_get_request_body : M Slot Ctl :=
  response <- call Unbound make_get_request ;;
  set_local (Bound response) ;;
  set_self (set_status (option_map status_code response)) ;;
  self <- get_self ;;
  if negb (status_in (status self) (retry_status self)) then ret Break
  else
    set_self (fun r => set_attempt (attempt r + 1) r) ;;
    self <- get_self ;;
    if attempt self >? retry_max self then ret Break
    else
      time_sleep (retry_sleep self) ;;
      ret Continue.

Inductive Loop : Type := Finished | OutOfFuel.

(** [while self.status != requests.codes.ok: body]; [fuel] bounds the
    number of iterations. *)
Fixpoint handle_get_request_while (fuel : nat) : M Slot Loop :=
  match fuel with
  | O => ret OutOfFuel
  | S fuel' =>
      self <- get_self ;;
      if status_is (status self) codes_ok then ret Finished
      else
        c <- handle_get_request_body ;;
        match c with
        | Break => ret Finished
        | Continue => handle_get_request_while fuel'
        end
  end.

(** [handle_get_request]: [None] when the fuel did not suffice. *)
Definition handle_get_request (fuel : nat) : M Slot (option (option Response)) :=
  l <- handle_get_request_while fuel ;;
  match l with
  | OutOfFuel => ret None
  | Finished => response <- read_local "response" ;; ret (Some response)
  end.

(** [Request.__init__] *)
Definition Request__init__ (fuel : nat) (draw : nat) (url : string) (stream : bool)
  : M unit (option unit) :=
  set_self (fun _ =>
    mkRequest (Some 0) 1 10 [500; 503; 504] 3 (5 # 2)
      (get_random_useragent draw) url stream Unbound) ;;
  r <- call Unbound (handle_get_request fuel) ;;
  match r with
  | None => ret None
  | Some response => set_self (set_response (Bound response)) ;; ret (Some tt)
  end.

(** An object before [__init__] has run. *)
Definition blank : Request := mkRequest None 0 0 [] 0 0 "" "" false Unbound.

(** [Request(url, stream)] on the network [net]: the outcome of the
    constructor and the world it leaves. *)
Definition new_Request (fuel : nat) (draw : nat) (net : nat -> GetOutcome)
    (url : string) (stream : bool) : Res (option unit) * World :=
  let '(r, (w, _)) := Request__init__ fuel draw url stream (mkWorld blank net 0 [], tt) in
  (r, w).

(** ** Observations on a trace *)

Local Open Scope list_scope.

Definition is_get (ev : Event) : bool :=
  match ev with EvGet _ _ _ _ _ => true | _ => false end.

Definition is_console (ev : Event) : bool :=
  match ev with EvSafePrint _ | EvPrint _ => true | _ => false end.

(** The number of physical requests of a trace. *)
Definition attempts (tr : list Event) : nat := List.length (filter is_get tr).

(** The delays slept, in order. *)
Definition sleeps (tr : list Event) : list Q :=
  flat_map (fun ev => match ev with EvSleep q => [q] | _ => [] end) tr.

(** The response objects closed, in order. *)
Definition closes (tr : list Event) : list Response :=
  flat_map (fun ev => match ev with EvClose r => [r] | _ => [] end) tr.

(** The requests and the delays of a trace, in the order they happened. *)
Inductive Tick : Type := Attempt | Sleep (seconds : Q).

Definition timeline (tr : list Event) : list Tick :=
  flat_map (fun ev => match ev with
                      | EvGet _ _ _ _ _ => [Attempt]
                      | EvSleep q => [Sleep q]
                      | _ => []
                      end) tr.

(** The physical request [self] sends. *)
Definition get_event (self : Request) : Event :=
  EvGet (url self) (headers self) (timeout self) true (stream self).

(** The world after one more request and the events [evs] that followed it. *)
Definition after_attempt (w : World) (evs : list Event) : World :=
  mkWorld (self w) (net w) (S (sent w)) (trace w ++ get_event (self w) :: evs).

(** Events that are neither a request nor a delay. *)
Definition is_quiet (ev : Event) : bool :=
  match ev with EvGet _ _ _ _ _ | EvSleep _ => false | _ => true end.

(** The world after one iteration: the status and the counter as the
    iteration left them, one more request sent, and the events [evs] after
    the request. *)
Definition after_body (w : World) (st : option Z) (n : Z) (evs : list Event) : World :=
  mkWorld (set_attempt n (set_status st (self w))) (net w) (S (sent w))
    (trace w ++ get_event (self w) :: evs).

(** Whether an outcome carries a status of the retry list. *)
Definition is_retryable (retry : list Z) (o : GetOutcome) : bool :=
  match o with
  | Responds r => status_in (Some (status_code r)) retry
  | Fails _ _ => false
  end.

(** The number of retryable outcomes among the [n] requests from number
    [from] on. *)
Fixpoint retryable_between (retry : list Z) (net : nat -> GetOutcome)
    (from n : nat) : nat :=
  match n with
  | O => 0
  | S n' => (if is_retryable retry (net from) then 1 else 0)
            + retryable_between retry net (S from) n'
  end.

(** The response objects obtained by the [n] requests from number [from]
    on, in order. *)
Fixpoint obtained (net : nat -> GetOutcome) (from n : nat) : list Response :=
  match n with
  | O => []
  | S n' => match net from with
            | Responds r => [r]
            | Fails _ _ => []
            end ++ obtained net (S from) n'
  end.

(** What a run of the loop from [w] with [fuel] iterations at most
    guarantees about its result [res] and the world [w'] it leaves. *)
Record loop_post (fuel : nat) (w : World) (res : Res Loop) (w' : World)
    (evs : list Event) : Prop := {
  post_trace : trace w' = trace w ++ evs;
  post_net : net w' = net w;
  post_retry_max : retry_max (self w') = retry_max (self w);
  post_retry_status : retry_status (self w') = retry_status (self w);
  post_stream : stream (self w') = stream (self w);
  post_sent : sent w' = (sent w + attempts evs)%nat;
  post_attempt :
    attempt (self w') =
      attempt (self w)
      + Z.of_nat (retryable_between (retry_status (self w)) (net w) (sent w) (attempts evs));
  post_sleeps : Z.of_nat (List.length (sleeps evs)) <= retry_max (self w) - attempt (self w);
  post_attempts : (attempts evs <= List.length (sleeps evs) + 1)%nat;
  post_bound : attempt (self w') <= retry_max (self w) + 1;
  post_closes :
    closes evs =
      if stream (self w) then [] else obtained (net w) (sent w) (attempts evs);
  post_finished :
    retry_max (self w) - attempt (self w) < Z.of_nat fuel -> res <> Val OutOfFuel
}.

(** The world when the loop is entered: every field but [response] assigned,
    nothing sent, nothing observed. *)
Definition loop_entry (draw : nat) (net : nat -> GetOutcome) (url : string)
    (stream : bool) : World :=
  mkWorld
    (mkRequest (Some 0) 1 10 [500; 503; 504] 3 (5 # 2)
       (get_random_useragent draw) url stream Unbound)
    net 0 [].

(** How the constructor ends, given how the loop ended. *)
Definition conclude (r : Res Loop * (World * Slot)) : Res (option unit) * World :=
  match r with
  | (Val Finished, (w, Bound v)) =>
      (Val (Some tt),
       mkWorld (set_response (Bound v) (self w)) (net w) (sent w) (trace w))
  | (Val Finished, (w, Unbound)) => (Exn (UnboundLocalError "response"), w)
  | (Val OutOfFuel, (w, _)) => (Val None, w)
  | (Exn e, (w, _)) => (Exn e, w)
  end.

(** The request every attempt of a session sends. *)
Definition session_get (draw : nat) (url : string) (stream : bool) : Event :=
  EvGet url (get_random_useragent draw) 10 true stream.

(** The object the constructor leaves, up to the three fields that vary. *)
Definition session_object (draw : nat) (url : string) (stream : bool)
    (st : option Z) (n : Z) (v : Slot) : Request :=
  mkRequest st n 10 [500; 503; 504] 3 (5 # 2) (get_random_useragent draw) url stream v.

(** ** [safe_print] among threads *)

Module Console.

(** The control points of one call [safe_print(message)]. *)
Inductive Pc : Type :=
| AtLock (message : string)
    (** before [print_lock = Lock()] *)
| AtWith (print_lock : nat) (message : string)
    (** before [with print_lock:], the lock still to be acquired *)
| AtPrint (print_lock : nat) (writes : list string)
    (** inside the [with] suite, with these writes of [print] left *)
| Returned.

(** The locks created so far, in creation order ([true]: held); what has
    reached standard output; and the threads, each running one call. *)
Record State : Type := mkState {
  locks : list bool;
  stdout : string;
  threads : list Pc
}.

Fixpoint update {A} (n : nat) (x : A) (l : list A) : list A :=
  match l, n with
  | [], _ => []
  | _ :: t, O => x :: t
  | h :: t, S n' => h :: update n' x t
  end.

(** [print(message)] writes the text and then the line end, as two writes
    to [sys.stdout]. *)
Definition print_writes (message : string) : list string := [message; newline].

(** One step of the thread at its control point: the new locks, the new
    output and the next control point; [None] when the thread cannot move
    (it waits for a held lock, or it has returned). *)
Definition step_pc (pc : Pc) (locks : list bool) (stdout : string)
  : option (list bool * string * Pc) :=
  match pc with
  | AtLock message =>
      Some (locks ++ [false], stdout, AtWith (List.length locks) message)
  | AtWith l message =>
      match nth_error locks l with
      | Some false => Some (update l true locks, stdout, AtPrint l (print_writes message))
      | _ => None
      end
  | AtPrint l (text :: rest) =>
      Some (locks, (stdout ++ text)%string, AtPrint l rest)
  | AtPrint l [] =>
      Some (update l false locks, stdout, Returned)
  | Returned => None
  end.

(** The scheduler lets thread [i] take one step. *)
Definition step (i : nat) (s : State) : option State :=
  match nth_error (threads s) i with
  | Some pc =>
      match step_pc pc (locks s) (stdout s) with
      | Some (locks', stdout', pc') =>
          Some (mkState locks' stdout' (update i pc' (threads s)))
      | None => None
      end
  | None => None
  end.

(** A schedule: the threads that step, in order. *)
Fixpoint run (schedule : list nat) (s : State) : option State :=
  match schedule with
  | [] => Some s
  | i :: rest =>
      match step i s with
      | Some s' => run rest s'
      | None => None
      end
  end.

(** [safe_print(message)], about to start. *)
Definition safe_print (message : string) : Pc := AtLock message.

(** The process with one thread per message, each calling [safe_print]. *)
Definition callers (messages : list string) : State :=
  mkState [] "" (map safe_print messages).

(** Whether the thread is inside its [with] suite. *)
Definition in_with (pc : Pc) : bool :=
  match pc with AtPrint _ _ => true | _ => false end.

(** The lock a control point refers to. *)
Definition lock_of (pc : Pc) : option nat :=
  match pc with
  | AtWith l _ | AtPrint l _ => Some l
  | _ => None
  end.

(** Every lock is referred to by one thread at most, it exists, and it is
    free as long as its thread has not entered the [with] suite. *)
Record private_locks (s : State) : Prop := {
  lock_free : forall i l m,
    nth_error (threads s) i = Some (AtWith l m) -> nth_error (locks s) l = Some false;
  lock_exists : forall i pc l,
    nth_error (threads s) i = Some pc -> lock_of pc = Some l ->
    (l < List.length (locks s))%nat;
  lock_private : forall i j pi pj l,
    nth_error (threads s) i = Some pi -> nth_error (threads s) j = Some pj ->
    lock_of pi = Some l -> lock_of pj = Some l -> i = j
}.

End Console.

(** ** The shape of a run of the retry loop *)

(** The fields of a [Request] that no method assigns after [__init__]. *)
Definition config (r : Request) : Z * list Z * Z * Q * string * string * bool :=
  (timeout r, retry_status r, retry_max r, retry_sleep r, headers r, url r, stream r).

(** [k] retries: each is a sleep followed by a request. *)
Fixpoint rounds (k : nat) (q : Q) : list Tick :=
  match k with
  | O => []
  | S k' => Sleep q :: Attempt :: rounds k' q
  end.

(** [k] iterations that all go round again: each is a request followed by a
    sleep. *)
Fixpoint laps (k : nat) (q : Q) : list Tick :=
  match k with
  | O => []
  | S k' => Attempt :: Sleep q :: laps k' q
  end.

(** How the loop ends after the outcome [o] of its last request: with the
    status and the local [response] of that outcome, or by the fault. *)
Definition ends_with (o : GetOutcome) (res : Res Loop) (st : option Z) (l : Slot)
  : Prop :=
  match o with
  | Responds r =>
      res = Val Finished /\ st = Some (status_code r) /\ l = Bound (Some r)
  | Fails cls _ =>
      if issubclass cls Timeout
      then res = Val Finished /\ st = None /\ l = Bound None
      else res = Exn (UnboundLocalError "response")
  end.

(** What a run of the loop from [w], entered with a status other than 200,
    looks like: [evs] are its events, [w'] and [l'] the world and the local
    [response] it leaves. *)
Record loop_run (fuel : nat) (w : World) (res : Res Loop) (w' : World) (l' : Slot)
    (evs : list Event) : Prop := {
  run_trace : trace w' = trace w ++ evs;
  run_net : net w' = net w;
  run_sent : sent w' = (sent w + attempts evs)%nat;
  run_config : config (self w') = config (self w);
  run_response : response (self w') = response (self w);
  run_gets : Forall (fun ev => is_get ev = true -> ev = get_event (self w)) evs;
  run_timeline :
    match res with
    | Val OutOfFuel => timeline evs = laps fuel (retry_sleep (self w))
    | _ => exists k, timeline evs = Attempt :: rounds k (retry_sleep (self w))
    end;
  run_prefix : forall k,
    (sent w <= k)%nat -> (S k < sent w')%nat ->
    is_retryable (retry_status (self w)) (net w k) = true;
  run_exhausted :
    res = Val Finished ->
    status_in (status (self w')) (retry_status (self w)) = true ->
    retry_max (self w) < attempt (self w');
  run_end :
    res <> Val OutOfFuel ->
    ends_with (net w (pred (sent w'))) res (status (self w')) l'
}.

(** The sleeps and the number of requests of a timeline. *)
Definition tick_sleeps (tl : list Tick) : list Q :=
  flat_map (fun t => match t with Sleep q => [q] | Attempt => [] end) tl.

Definition tick_attempts (tl : list Tick) : nat :=
  List.length (filter (fun t => match t with Attempt => true | Sleep _ => false end) tl).

(** ** Observations on the threads of [safe_print] *)

(** The characters a call has still to write. *)
Definition pending (pc : Console.Pc) : nat :=
  match pc with
  | Console.AtLock m | Console.AtWith _ m =>
      list_sum (map String.length (Console.print_writes m))
  | Console.AtPrint _ writes => list_sum (map String.length writes)
  | Console.Returned => 0
  end.

(** A lock is held exactly while some call is inside its [with] suite with
    that lock. *)
Definition held_inside (s : Console.State) : Prop :=
  forall l,
    nth_error (Console.locks s) l = Some true <->
    exists i writes, nth_error (Console.threads s) i = Some (Console.AtPrint l writes).

(** ** Paths: [get_path_as_path_obj], [get_full_path], [is_valid_path] *)

From Stdlib Require DecimalString.

Module Paths.

(** A [pathlib.Path] object, by its text. *)
Record Path : Type := mkPath { text : string }.

(** The argument [path] of the functions: a [str] or a [Path]. *)
Inductive PathLike : Type :=
| Str (s : string)
| PathObj (p : Path).

(** What a path leads to, symbolic links followed. *)
Inductive Kind : Type := RegularFile | Directory | OtherKind.

(** Exceptions of the operating system layer, and [SystemExit]. *)
Inductive OsExc : Type :=
| FileExistsError
| FileNotFoundError
| PermissionError
| NotADirectoryError
| SystemExit.

(** What the code asks of [pathlib] and [os]: the construction of a path
    from a string, [Path.is_absolute], the entry a path leads to if any
    (behind [Path.exists], [Path.is_file] and [Path.is_dir]),
    [Path.is_symlink], [Path.resolve], [os.access] with [os.R_OK] and with
    [os.W_OK], [Path.cwd], and whether the system refuses to create a
    directory that does not exist yet. *)
Record Os : Type := mkOs {
  path_of_str : string -> Path;
  is_absolute : Path -> bool;
  kind : Path -> option Kind;
  is_symlink : Path -> bool;
  resolve : Path -> Path;
  access_R_OK : Path -> bool;
  access_W_OK : Path -> bool;
  cwd : Path;
  mkdir_refused : Path -> option OsExc
}.

Definition exists_ (os : Os) (p : Path) : bool :=
  match kind os p with Some _ => true | None => false end.

Definition is_file (os : Os) (p : Path) : bool :=
  match kind os p with Some RegularFile => true | _ => false end.

Definition is_dir (os : Os) (p : Path) : bool :=
  match kind os p with Some Directory => true | _ => false end.

Definition get_path_as_path_obj (os : Os) (path : PathLike) : Path :=
  match path with
  | Str s => path_of_str os s
  | PathObj p => p
  end.

Definition get_full_path (os : Os) (path : PathLike) : Path :=
  let path := get_path_as_path_obj os path in
  if negb (is_absolute os path) || is_symlink os path
  then resolve os path
  else path.

(** The [try] suite of [is_valid_path]: an exception or the value
    returned. *)
Definition is_valid_path_try (os : Os) (path : Path) (strict : bool) : OsExc + bool :=
  if strict && exists_ os path then inl FileExistsError
  else if negb strict && negb (exists_ os path) then inl FileNotFoundError
  else if is_file os path then inr (access_R_OK os path)
  else if is_dir os path then inr (access_W_OK os path)
  else inr true.

(** [is_valid_path]: the [except] clause turns the two exceptions it names
    into [False]; any other would propagate. *)
Definition is_valid_path (os : Os) (path : PathLike) (strict : bool)
  : OsExc + bool :=
  let path := get_path_as_path_obj os path in
  match is_valid_path_try os path strict with
  | inl FileExistsError | inl FileNotFoundError => inr false
  | r => r
  end.

End Paths.

(** ** The command line: [validate_args], [list_available_packs] *)

Module Cli.

Import Paths.

(** The dictionary of arguments, one field per option of the parser. *)
Record Arguments : Type := mkArguments {
  id : option Z;
  list_packs : bool;
  directory : option PathLike;
  include_forge : bool;
  verbose : bool
}.

(** What the program does to the outside: a [print], or the creation of a
    directory with its parents. *)
Inductive Effect : Type :=
| Printed (message : string)
| MadeDirs (p : Path).

(** A computation that performs effects and returns or raises. *)
Definition Run (A : Type) : Type := list Effect -> (OsExc + A) * list Effect.

Definition pure {A} (a : A) : Run A := fun effects => (inr a, effects).

Definition throw {A} (e : OsExc) : Run A := fun effects => (inl e, effects).

Definition andthen {A B} (m : Run A) (k : A -> Run B) : Run B :=
  fun effects =>
    match m effects with
    | (inr a, effects') => k a effects'
    | (inl e, effects') => (inl e, effects')
    end.

Declare Scope cli_scope.
Notation "x <- m ;; k" := (andthen m (fun x => k))
  (at level 61, m at next level, right associativity) : cli_scope.
Notation "m ;; k" := (andthen m (fun _ => k))
  (at level 61, right associativity) : cli_scope.
Local Open Scope cli_scope.

Definition print (message : string) : Run unit :=
  fun effects => (inr tt, effects ++ [Printed message]).

(** [sys.exit()] *)
Definition sys_exit {A} : Run A := throw SystemExit.

(** [Path.mkdir(parents=True)]: [FileExistsError] when the path exists;
    otherwise the directory and its missing parents are created, unless the
    system refuses. *)
Definition mkdir_parents (os : Os) (p : Path) : Run unit :=
  if exists_ os p then throw FileExistsError
  else match mkdir_refused os p with
       | Some e => throw e
       | None => fun effects => (inr tt, effects ++ [MadeDirs p])
       end.

Definition lift {A} (r : OsExc + A) : Run A :=
  match r with
  | inl e => throw e
  | inr a => pure a
  end.

Definition known_packs : list (string * Z) := [("FTB Interactions", 5)].

(** [f"{k} : {v}"] *)
Definition pack_line (pack : string * Z) : string :=
  (fst pack ++ " : " ++ DecimalString.NilZero.string_of_int (Z.to_int (snd pack)))%string.

Fixpoint for_each {A} (f : A -> Run unit) (xs : list A) : Run unit :=
  match xs with
  | [] => pure tt
  | x :: rest => f x ;; for_each f rest
  end.

Definition list_available_packs : Run unit :=
  print ("Listing available packs" ++ newline ++ "=======================")%string ;;
  for_each (fun pack => print (pack_line pack)) known_packs ;;
  sys_exit.

Definition set_directory (target : Path) (a : Arguments) : Arguments :=
  mkArguments (id a) (list_packs a) (Some (PathObj target)) (include_forge a) (verbose a).

Definition validate_args (os : Os) (arguments : Arguments) : Run Arguments :=
  (if list_packs arguments then list_available_packs else pure tt) ;;
  target_dir <-
    match directory arguments with
    | Some d => pure (get_full_path os d)
    | None =>
        (if verbose arguments
         then print "Download directory not specified, using current working directory"
         else pure tt) ;;
        pure (cwd os)
    end ;;
  valid <- lift (is_valid_path os (PathObj target_dir) false) ;;
  (if negb valid
   then
     (if verbose arguments
      then print "Download directory does not exist, creating"
      else pure tt) ;;
     mkdir_parents os target_dir
   else pure tt) ;;
  pure (set_directory target_dir arguments).

(** The directory the arguments designate: the given one made full, or the
    current working directory. *)
Definition target_of (os : Os) (arguments : Arguments) : Path :=
  match directory arguments with
  | Some d => get_full_path os d
  | None => cwd os
  end.

Definition is_printed (e : Effect) : bool :=
  match e with Printed _ => true | MadeDirs _ => false end.

End Cli.

(** * Properties *)

Section TraceFacts.

Lemma attempts_app (a b : list Event) : attempts (a ++ b) = (attempts a + attempts b)%nat.
Proof. unfold attempts. now rewrite filter_app, length_app. Qed.

Lemma sleeps_app (a b : list Event) : sleeps (a ++ b) = sleeps a ++ sleeps b.
Proof. apply flat_map_app. Qed.

Lemma closes_app (a b : list Event) : closes (a ++ b) = closes a ++ closes b.
Proof. apply flat_map_app. Qed.

Lemma timeline_app (a b : list Event) : timeline (a ++ b) = timeline a ++ timeline b.
Proof. apply flat_map_app. Qed.

Lemma console_attempts (msgs : list Event) :
  forallb is_console msgs = true -> attempts msgs = 0%nat.
Proof.
  induction msgs as [|ev msgs IH]; [reflexivity|].
  cbn [forallb]. intros [Hev Hrest]%andb_prop.
  destruct ev; try discriminate; apply (IH Hrest).
Qed.

Lemma console_sleeps (msgs : list Event) :
  forallb is_console msgs = true -> sleeps msgs = [].
Proof.
  induction msgs as [|ev msgs IH]; [reflexivity|].
  cbn [forallb]. intros [Hev Hrest]%andb_prop.
  destruct ev; try discriminate; apply (IH Hrest).
Qed.

Lemma console_closes (msgs : list Event) :
  forallb is_console msgs = true -> closes msgs = [].
Proof.
  induction msgs as [|ev msgs IH]; [reflexivity|].
  cbn [forallb]. intros [Hev Hrest]%andb_prop.
  destruct ev; try discriminate; apply (IH Hrest).
Qed.

Lemma console_timeline (msgs : list Event) :
  forallb is_console msgs = true -> timeline msgs = [].
Proof.
  induction msgs as [|ev msgs IH]; [reflexivity|].
  cbn [forallb]. intros [Hev Hrest]%andb_prop.
  destruct ev; try discriminate; apply (IH Hrest).
Qed.

End TraceFacts.

(** ** One physical attempt *)

Section Attempt.

Variable w : World.

(** An attempt whose request is answered returns the response object,
    after console reports when the status is an error status and, unless
    the session streams, after closing the response. *)
Lemma make_get_request_responds (r : Response) :
  net w (sent w) = Responds r ->
  exists msgs,
    forallb is_console msgs = true /\
    (is_http_error (status_code r) = false -> msgs = []) /\
    make_get_request (w, Unbound) =
      (Val (Some r),
       (after_attempt w (msgs ++ if stream (self w) then [] else [EvClose r]),
        Bound (Some r))).
Proof.
  intros Hnet. destruct w as [me nt sn tr]. cbn in *.
  unfold make_get_request, try_finally, try_except, make_get_request_try,
    bind, get_self, requests_get, raise_for_status, after_attempt, get_event.
  cbn. rewrite Hnet.
  destruct (stream me) eqn:Hs, (is_http_error (status_code r)) eqn:Herr;
    cbn; rewrite ?Hs; cbn.
  1,3: destruct (status_code r =? 403); cbn; rewrite ?Hs; cbn.
  all: rewrite <- ?app_assoc; cbn [app].
  1-4: eexists [_; _]; (split; [|split]); cycle 2;
    [reflexivity | reflexivity | discriminate].
  all: exists []; repeat split.
Qed.

(** An attempt whose request raises returns [None] when the exception is a
    timeout; for every other exception of the library no branch assigns
    [response], and the attempt ends in an unbound-local fault. *)
Lemma make_get_request_fails (cls : ExcClass) (detail : string) :
  net w (sent w) = Fails cls detail ->
  exists msgs,
    forallb is_console msgs = true /\
    make_get_request (w, Unbound) =
      (if issubclass cls Timeout
       then (Val None, (after_attempt w msgs, Bound None))
       else (Exn (UnboundLocalError "response"), (after_attempt w msgs, Unbound))).
Proof.
  intros Hnet. destruct w as [me nt sn tr]. cbn in *.
  unfold make_get_request, try_finally, try_except, make_get_request_try,
    make_get_request_finally, read_local, get_local,
    bind, get_self, requests_get, after_attempt, get_event.
  cbn -[append]. rewrite Hnet.
  destruct cls; cbn -[append]; rewrite <- ?app_assoc; cbn [app];
    first [ exists []; split; reflexivity
          | eexists [_]; split; cycle 1; [reflexivity | reflexivity] ].
Qed.

End Attempt.

(** ** One iteration of the retry loop *)

Section Body.

Lemma quiet_attempts (evs : list Event) :
  forallb is_quiet evs = true -> attempts evs = 0%nat.
Proof.
  induction evs as [|ev evs IH]; [reflexivity|].
  cbn [forallb]. intros [Hev Hrest]%andb_prop.
  destruct ev; try discriminate; apply (IH Hrest).
Qed.

Lemma quiet_sleeps (evs : list Event) :
  forallb is_quiet evs = true -> sleeps evs = [].
Proof.
  induction evs as [|ev evs IH]; [reflexivity|].
  cbn [forallb]. intros [Hev Hrest]%andb_prop.
  destruct ev; try discriminate; apply (IH Hrest).
Qed.

Lemma quiet_timeline (evs : list Event) :
  forallb is_quiet evs = true -> timeline evs = [].
Proof.
  induction evs as [|ev evs IH]; [reflexivity|].
  cbn [forallb]. intros [Hev Hrest]%andb_prop.
  destruct ev; try discriminate; apply (IH Hrest).
Qed.

Lemma console_quiet (msgs : list Event) :
  forallb is_console msgs = true -> forallb is_quiet msgs = true.
Proof.
  induction msgs as [|ev msgs IH]; [reflexivity|].
  cbn [forallb]. intros [Hev Hrest]%andb_prop.
  destruct ev; try discriminate; apply (IH Hrest).
Qed.

Variables (w : World) (l : Slot).

(** The iteration whose request is answered by [r]: the status becomes
    that of [r]; a status outside [retry_status] leaves the loop with the
    counter untouched; otherwise the counter is incremented and the loop
    either stops (counter above [retry_max]) or sleeps and continues. *)
Lemma body_responds (r : Response) :
  net w (sent w) = Responds r ->
  exists evs,
    forallb is_quiet evs = true /\
    closes evs = (if stream (self w) then [] else [r]) /\
    handle_get_request_body (w, l) =
      let st := Some (status_code r) in
      let n := attempt (self w) in
      if status_in st (retry_status (self w)) then
        if n + 1 >? retry_max (self w)
        then (Val Break, (after_body w st (n + 1) evs, Bound (Some r)))
        else (Val Continue,
              (after_body w st (n + 1) (evs ++ [EvSleep (retry_sleep (self w))]),
               Bound (Some r)))
      else (Val Break, (after_body w st n evs, Bound (Some r))).
Proof.
  intros Hnet.
  destruct (make_get_request_responds w r Hnet) as (msgs & Hmsgs & _ & Heq).
  exists (msgs ++ if stream (self w) then [] else [EvClose r]).
  split; [|split].
  - rewrite forallb_app, (console_quiet _ Hmsgs). now destruct (stream (self w)).
  - rewrite closes_app, (console_closes _ Hmsgs). now destruct (stream (self w)).
  - unfold handle_get_request_body, bind, call. rewrite Heq.
    destruct w as [me nt sn tr], me. cbn -[status_in Z.gtb].
    destruct (status_in _ _); cbn -[Z.gtb]; [|reflexivity].
    destruct (_ >? _); cbn; [reflexivity|].
    unfold after_body, get_event, ret. cbn.
    now rewrite <- !app_assoc, <- !app_comm_cons, <- !app_assoc.
Qed.

(** The iteration whose request raises: a timeout leaves the loop with an
    absent status and an absent response; any other exception of the
    library escapes the iteration as an unbound-local fault, before the
    status is assigned. *)
Lemma body_fails (cls : ExcClass) (detail : string) :
  net w (sent w) = Fails cls detail ->
  exists msgs,
    forallb is_console msgs = true /\
    handle_get_request_body (w, l) =
      (if issubclass cls Timeout
       then (Val Break, (after_body w None (attempt (self w)) msgs, Bound None))
       else (Exn (UnboundLocalError "response"), (after_attempt w msgs, l))).
Proof.
  intros Hnet.
  destruct (make_get_request_fails w cls detail Hnet) as (msgs & Hmsgs & Heq).
  exists msgs. split; [exact Hmsgs|].
  unfold handle_get_request_body, bind, call. rewrite Heq.
  destruct w as [me nt sn tr], me.
  destruct (issubclass cls Timeout); reflexivity.
Qed.

End Body.

(** ** The retry loop *)

Section Loop.

Lemma attempts_after (evs : list Event) (ev : Event) :
  is_get ev = true -> attempts (ev :: evs) = S (attempts evs).
Proof. unfold attempts. cbn. now intros ->. Qed.

Lemma while_unfold (fuel : nat) (s : World * Slot) :
  handle_get_request_while (S fuel) s =
    if status_is (status (self (fst s))) codes_ok then (Val Finished, s)
    else match handle_get_request_body s with
         | (Val Break, s') => (Val Finished, s')
         | (Val Continue, s') => handle_get_request_while fuel s'
         | (Exn e, s') => (Exn e, s')
         end.
Proof.
  cbn [handle_get_request_while]. unfold bind, get_self. cbn.
  destruct (status_is _ _); [reflexivity|].
  destruct (handle_get_request_body s) as [[[]|] s']; reflexivity.
Qed.


(** The run that ends in its first iteration. *)
Lemma post_last (fuel : nat) (w : World) (res : Res Loop) (st : option Z)
    (n : Z) (evs : list Event) :
  forallb is_quiet evs = true ->
  attempt (self w) <= retry_max (self w) ->
  n = attempt (self w)
      + (if is_retryable (retry_status (self w)) (net w (sent w)) then 1 else 0) ->
  closes evs = (if stream (self w) then [] else obtained (net w) (sent w) 1) ->
  res <> Val OutOfFuel ->
  loop_post fuel w res (after_body w st n evs) (get_event (self w) :: evs).
Proof.
  intros Hq Hle Hn Hc Hres.
  assert (Ha : attempts (get_event (self w) :: evs) = 1%nat)
    by (rewrite attempts_after, (quiet_attempts _ Hq); reflexivity).
  constructor; rewrite ?Ha; cbn -[Z.of_nat Z.add attempts sleeps closes obtained];
    try reflexivity; try (intros _; exact Hres).
  - now rewrite Nat.add_1_r.
  - rewrite Hn. destruct (is_retryable _ _); reflexivity.
  - unfold sleeps. cbn. fold (sleeps evs). rewrite (quiet_sleeps _ Hq). cbn. lia.
  - lia.
  - destruct (is_retryable _ _); lia.
  - exact Hc.
Qed.

(** The run whose first iteration faults before the status is assigned. *)
Lemma post_fault (fuel : nat) (w : World) (e : PyExc) (msgs : list Event)
    (cls : ExcClass) (detail : string) :
  forallb is_console msgs = true ->
  attempt (self w) <= retry_max (self w) ->
  net w (sent w) = Fails cls detail ->
  loop_post fuel w (Exn e) (after_attempt w msgs) (get_event (self w) :: msgs).
Proof.
  intros Hq Hle Hnr.
  assert (Ha : attempts (get_event (self w) :: msgs) = 1%nat)
    by (rewrite attempts_after, (console_attempts _ Hq); reflexivity).
  constructor; rewrite ?Ha; cbn -[Z.of_nat Z.add attempts sleeps closes obtained];
    try reflexivity; try discriminate.
  - now rewrite Nat.add_1_r.
  - rewrite Hnr. cbn. lia.
  - unfold sleeps. cbn. fold (sleeps msgs). rewrite (console_sleeps _ Hq). cbn. lia.
  - lia.
  - lia.
  - change (closes (get_event (self w) :: msgs)) with (closes msgs).
    rewrite (console_closes _ Hq). cbn. rewrite Hnr.
    now destruct (stream (self w)).
Qed.

(** The run that sleeps after its first iteration and goes on. *)
Lemma post_continue (fuel : nat) (w w' : World) (res : Res Loop) (st : option Z)
    (evs evs' : list Event) :
  let w1 := after_body w st (attempt (self w) + 1)
              (evs ++ [EvSleep (retry_sleep (self w))]) in
  forallb is_quiet evs = true ->
  is_retryable (retry_status (self w)) (net w (sent w)) = true ->
  attempt (self w) + 1 <= retry_max (self w) ->
  closes evs = (if stream (self w) then [] else obtained (net w) (sent w) 1) ->
  loop_post fuel w1 res w' evs' ->
  loop_post (S fuel) w res w'
    (get_event (self w) :: (evs ++ [EvSleep (retry_sleep (self w))]) ++ evs').
Proof.
  intros w1 Hq Hr Hle Hc [Htr Hnet Hmax Hst Hstr Hsent Hatt Hsl Hat Hb Hcl Hfin].
  subst w1. cbn -[Z.of_nat Z.add attempts sleeps closes obtained] in *.
  assert (Ha : attempts (get_event (self w)
                  :: (evs ++ [EvSleep (retry_sleep (self w))]) ++ evs')
               = S (attempts evs')).
  { rewrite attempts_after by reflexivity.
    rewrite !attempts_app, (quiet_attempts _ Hq). reflexivity. }
  assert (Hs : List.length (sleeps (get_event (self w)
                  :: (evs ++ [EvSleep (retry_sleep (self w))]) ++ evs'))
               = S (List.length (sleeps evs'))).
  { change (get_event (self w) :: (evs ++ [EvSleep (retry_sleep (self w))]) ++ evs')
      with ([get_event (self w)] ++ (evs ++ [EvSleep (retry_sleep (self w))]) ++ evs').
    rewrite !sleeps_app, (quiet_sleeps _ Hq). reflexivity. }
  constructor; rewrite ?Ha, ?Hs; cbn -[Z.of_nat Z.add attempts sleeps closes obtained]; try assumption.
  - rewrite Htr, <- app_assoc. reflexivity.
  - rewrite Hsent. lia.
  - rewrite Hatt, Hr. cbn [retryable_between]. lia.
  - lia.
  - lia.
  - change (get_event (self w) :: (evs ++ [EvSleep (retry_sleep (self w))]) ++ evs')
      with ([get_event (self w)] ++ (evs ++ [EvSleep (retry_sleep (self w))]) ++ evs').
    rewrite !closes_app, Hc, Hcl. cbn.
    destruct (stream (self w)); [reflexivity|].
    rewrite !app_nil_r. reflexivity.
  - intros Hf. apply Hfin. lia.
Qed.

Lemma while_spec (fuel : nat) : forall (w : World) (l : Slot),
  attempt (self w) <= retry_max (self w) ->
  exists evs,
    loop_post fuel w (fst (handle_get_request_while fuel (w, l)))
      (fst (snd (handle_get_request_while fuel (w, l)))) evs.
Proof.
  assert (Hstop : forall n w res, res <> Val OutOfFuel \/ n = 0%nat ->
            attempt (self w) <= retry_max (self w) -> loop_post n w res w []).
  { intros n w res Hres Hle.
    constructor; cbn; rewrite ?app_nil_r, ?Z.add_0_r, ?Nat.add_0_r;
      try reflexivity; try lia.
    - now destruct (stream (self w)).
    - destruct Hres as [Hres| ->]; [intros _; exact Hres | cbn; lia]. }
  induction fuel as [|fuel IH]; intros w l Hle.
  - exists []. apply Hstop; [now right | exact Hle].
  - rewrite while_unfold. cbn [fst snd].
    destruct (status_is (status (self w)) codes_ok).
    { exists []. apply Hstop; [left; discriminate | exact Hle]. }
    destruct (net w (sent w)) as [r|cls detail] eqn:Hnet.
    + destruct (body_responds w l r Hnet) as (evs & Hq & Hc & ->).
      assert (Hc' : closes evs
                    = if stream (self w) then [] else obtained (net w) (sent w) 1)
        by (cbn; now rewrite Hnet).
      cbn zeta.
      destruct (status_in _ _) eqn:Hin.
      * destruct (_ >? _) eqn:Hgt.
        -- exists (get_event (self w) :: evs). cbn [fst snd].
           apply post_last; try assumption; try discriminate.
           rewrite Hnet. cbn [is_retryable]. now rewrite Hin.
        -- destruct (IH (after_body w (Some (status_code r)) (attempt (self w) + 1)
                           (evs ++ [EvSleep (retry_sleep (self w))]))
                        (Bound (Some r))) as (evs' & Hpost).
           { cbn. lia. }
           eexists. eapply post_continue; try eassumption.
           ++ rewrite Hnet. exact Hin.
           ++ lia.
      * exists (get_event (self w) :: evs). cbn [fst snd].
        apply post_last; try assumption; try discriminate.
        rewrite Hnet. cbn [is_retryable]. rewrite Hin. lia.
    + destruct (body_fails w l cls detail Hnet) as (msgs & Hq & ->).
      destruct (issubclass cls Timeout).
      * exists (get_event (self w) :: msgs). cbn [fst snd].
        apply post_last; try assumption; try discriminate.
        -- now apply console_quiet.
        -- rewrite Hnet. cbn. lia.
        -- rewrite (console_closes _ Hq). cbn. rewrite Hnet.
           now destruct (stream (self w)).
      * exists (get_event (self w) :: msgs). cbn [fst snd].
        eapply post_fault; eassumption.
Qed.

End Loop.

(** ** The three ways an answered iteration goes on *)

Section Steps.

Variables (fuel : nat) (w : World) (l : Slot) (r : Response).

Hypothesis Hloop : status_is (status (self w)) codes_ok = false.
Hypothesis Hnet : net w (sent w) = Responds r.

Let st : option Z := Some (status_code r).

(** A status outside the retry list: the loop is left, the counter is
    untouched. *)
Lemma while_break :
  status_in st (retry_status (self w)) = false ->
  exists evs,
    forallb is_quiet evs = true /\
    handle_get_request_while (S fuel) (w, l) =
      (Val Finished, (after_body w st (attempt (self w)) evs, Bound (Some r))).
Proof.
  intros Hin. destruct (body_responds w l r Hnet) as (evs & Hq & _ & Hbody).
  exists evs. split; [exact Hq|].
  rewrite while_unfold. cbn [fst]. rewrite Hloop, Hbody. cbn zeta.
  fold st. now rewrite Hin.
Qed.

(** A status of the retry list with the counter still within
    [retry_max] after its increment: sleep, then go round again. *)
Lemma while_retry :
  status_in st (retry_status (self w)) = true ->
  attempt (self w) + 1 <= retry_max (self w) ->
  exists evs,
    forallb is_quiet evs = true /\
    handle_get_request_while (S fuel) (w, l) =
      handle_get_request_while fuel
        (after_body w st (attempt (self w) + 1)
           (evs ++ [EvSleep (retry_sleep (self w))]),
         Bound (Some r)).
Proof.
  intros Hin Hle. destruct (body_responds w l r Hnet) as (evs & Hq & _ & Hbody).
  exists evs. split; [exact Hq|].
  rewrite while_unfold. cbn [fst]. rewrite Hloop, Hbody. cbn zeta.
  fold st. rewrite Hin.
  destruct (attempt (self w) + 1 >? retry_max (self w)) eqn:Hgt; [lia|reflexivity].
Qed.

(** A status of the retry list with the counter above [retry_max] after
    its increment: the loop is left without a sleep. *)
Lemma while_exhausted :
  status_in st (retry_status (self w)) = true ->
  retry_max (self w) < attempt (self w) + 1 ->
  exists evs,
    forallb is_quiet evs = true /\
    handle_get_request_while (S fuel) (w, l) =
      (Val Finished, (after_body w st (attempt (self w) + 1) evs, Bound (Some r))).
Proof.
  intros Hin Hlt. destruct (body_responds w l r Hnet) as (evs & Hq & _ & Hbody).
  exists evs. split; [exact Hq|].
  rewrite while_unfold. cbn [fst]. rewrite Hloop, Hbody. cbn zeta.
  fold st. rewrite Hin.
  destruct (attempt (self w) + 1 >? retry_max (self w)) eqn:Hgt; [reflexivity|lia].
Qed.

End Steps.

(** ** The session: [Request(url, stream)] *)

Section Session.

Variables (draw : nat) (net : nat -> GetOutcome) (url : string) (stream : bool).

Lemma new_Request_unfold (fuel : nat) :
  new_Request fuel draw net url stream =
    conclude (handle_get_request_while fuel (loop_entry draw net url stream, Unbound)).
Proof.
  unfold new_Request, Request__init__, handle_get_request, bind, call, set_self,
    conclude, read_local, get_local.
  cbn -[handle_get_request_while get_random_useragent].
  fold (loop_entry draw net url stream).
  destruct (handle_get_request_while fuel _) as [[[]|e] [w [|v]]]; reflexivity.
Qed.

Lemma conclude_trace (r : Res Loop * (World * Slot)) :
  trace (snd (conclude r)) = trace (fst (snd r)).
Proof. destruct r as [[[]|e] [w [|v]]]; reflexivity. Qed.

Lemma conclude_sent (r : Res Loop * (World * Slot)) :
  sent (snd (conclude r)) = sent (fst (snd r)).
Proof. destruct r as [[[]|e] [w [|v]]]; reflexivity. Qed.

Lemma conclude_attempt (r : Res Loop * (World * Slot)) :
  attempt (self (snd (conclude r))) = attempt (self (fst (snd r))).
Proof. destruct r as [[[]|e] [w [|v]]]; reflexivity. Qed.

Lemma conclude_fuel (r : Res Loop * (World * Slot)) :
  fst r <> Val OutOfFuel -> fst (conclude r) <> Val None.
Proof. destruct r as [[[]|e] [w [|v]]]; cbn; congruence. Qed.

End Session.

Section Scenarios.

Variables (draw : nat) (net : nat -> GetOutcome) (url : string) (stream : bool).

Let entry : World := loop_entry draw net url stream.

(** A first answer whose status is not in the retry list ends the session
    after one iteration. *)
Lemma session_single (fuel : nat) (r : Response) :
  net 0%nat = Responds r ->
  status_in (Some (status_code r)) [500; 503; 504] = false ->
  exists evs,
    forallb is_quiet evs = true /\
    closes evs = (if stream then [] else [r]) /\
    new_Request (S fuel) draw net url stream =
      (Val (Some tt),
       mkWorld (session_object draw url stream (Some (status_code r)) 1 (Bound (Some r)))
         net 1 (session_get draw url stream :: evs)).
Proof.
  intros Hnet Hin.
  destruct (body_responds entry Unbound r Hnet) as (evs & Hq & Hc & Hbody).
  exists evs. split; [exact Hq|]. split; [exact Hc|].
  rewrite new_Request_unfold, while_unfold. fold entry.
  cbn [fst status_is status self entry loop_entry codes_ok Z.eqb].
  rewrite Hbody. cbn zeta.
  change (retry_status (self entry)) with [500; 503; 504].
  rewrite Hin. reflexivity.
Qed.

End Scenarios.

(** * The session, case by case *)

Section RetryFacts.

Lemma not_retryable (n : Z) :
  ~ In n [500; 503; 504] -> status_in (Some n) [500; 503; 504] = false.
Proof.
  intros Hn. cbn.
  destruct (Z.eqb_spec n 500) as [->|_]; [exfalso; apply Hn; cbn; tauto|].
  destruct (Z.eqb_spec n 503) as [->|_]; [exfalso; apply Hn; cbn; tauto|].
  destruct (Z.eqb_spec n 504) as [->|_]; [exfalso; apply Hn; cbn; tauto|].
  reflexivity.
Qed.

Lemma retryable_not_ok (n : Z) :
  status_in (Some n) [500; 503; 504] = true -> status_is (Some n) codes_ok = false.
Proof.
  cbn. unfold codes_ok.
  destruct (Z.eqb_spec n 200) as [->|_]; [discriminate|reflexivity].
Qed.

Lemma retryable_responds (retry : list Z) (o : GetOutcome) :
  is_retryable retry o = true ->
  exists r, o = Responds r /\ status_in (Some (status_code r)) retry = true.
Proof. destruct o as [r|]; [intros H; now exists r | discriminate]. Qed.

Lemma single_timeline (ev : Event) (evs : list Event) :
  is_get ev = true -> forallb is_quiet evs = true ->
  attempts (ev :: evs) = 1%nat /\ sleeps (ev :: evs) = [] /\
  timeline (ev :: evs) = [Attempt].
Proof.
  intros Hev Hq. rewrite (attempts_after _ _ Hev), (quiet_attempts _ Hq).
  destruct ev; try discriminate. cbn.
  fold (sleeps evs). fold (timeline evs).
  now rewrite (quiet_sleeps _ Hq), (quiet_timeline _ Hq).
Qed.

End RetryFacts.

(** C7. When the first attempt is answered with status 200, the session
    completes with exactly one physical request and no sleep, and the
    object's [response] is the response object of that attempt. *)
Theorem ok_first_attempt_single_request
    (fuel draw : nat) (net : nat -> GetOutcome) (url : string) (stream : bool)
    (r : Response) :
  net 0%nat = Responds r ->
  status_code r = codes_ok ->
  let run := new_Request (S fuel) draw net url stream in
  fst run = Val (Some tt) /\
  response (self (snd run)) = Bound (Some r) /\
  status (self (snd run)) = Some 200 /\
  attempts (trace (snd run)) = 1%nat /\
  sleeps (trace (snd run)) = [] /\
  timeline (trace (snd run)) = [Attempt].
Proof.
  intros Hnet Hok run.
  destruct (session_single draw net url stream fuel r Hnet) as (evs & Hq & _ & Hrun).
  { rewrite Hok. reflexivity. }
  subst run. rewrite Hrun. cbn [fst snd self trace response status session_object].
  rewrite Hok. repeat split; now apply single_timeline.
Qed.

Lemma ok_first_attempt_single_request_witness :
  let run := new_Request 1 0 (fun _ => Responds (mkResponse 0 200)) "http://host/pack" false in
  fst run = Val (Some tt) /\
  response (self (snd run)) = Bound (Some (mkResponse 0 200)) /\
  status (self (snd run)) = Some 200 /\
  attempts (trace (snd run)) = 1%nat /\
  sleeps (trace (snd run)) = [] /\
  timeline (trace (snd run)) = [Attempt].
Proof.
  apply (ok_first_attempt_single_request 0 0 (fun _ => Responds (mkResponse 0 200))
           "http://host/pack" false (mkResponse 0 200)); reflexivity.
Defined.

(** C5. When the first attempt is answered with a status that is neither
    200 nor one of 500, 503, 504 (404, 201 and 204 among them), the session
    completes with exactly one physical request and no sleep, and the
    object's [response] is the response object of that attempt. *)
Theorem other_status_single_request
    (fuel draw : nat) (net : nat -> GetOutcome) (url : string) (stream : bool)
    (r : Response) :
  net 0%nat = Responds r ->
  status_code r <> 200 ->
  ~ In (status_code r) [500; 503; 504] ->
  let run := new_Request (S fuel) draw net url stream in
  fst run = Val (Some tt) /\
  response (self (snd run)) = Bound (Some r) /\
  status (self (snd run)) = Some (status_code r) /\
  attempt (self (snd run)) = 1 /\
  attempts (trace (snd run)) = 1%nat /\
  sleeps (trace (snd run)) = [] /\
  timeline (trace (snd run)) = [Attempt].
Proof.
  intros Hnet _ Hnr run.
  destruct (session_single draw net url stream fuel r Hnet (not_retryable _ Hnr))
    as (evs & Hq & _ & Hrun).
  subst run. rewrite Hrun. cbn [fst snd self trace response status attempt session_object].
  repeat split; now apply single_timeline.
Qed.

Lemma other_status_single_request_witness :
  let run := new_Request 1 0 (fun _ => Responds (mkResponse 0 404)) "http://host/pack" false in
  fst run = Val (Some tt) /\
  response (self (snd run)) = Bound (Some (mkResponse 0 404)) /\
  status (self (snd run)) = Some 404 /\
  attempt (self (snd run)) = 1 /\
  attempts (trace (snd run)) = 1%nat /\
  sleeps (trace (snd run)) = [] /\
  timeline (trace (snd run)) = [Attempt].
Proof.
  apply (other_status_single_request 0 0 (fun _ => Responds (mkResponse 0 404))
           "http://host/pack" false (mkResponse 0 404)).
  - reflexivity.
  - simpl. lia.
  - simpl. lia.
Defined.

Create Rewrite HintDb trace.
#[local] Hint Rewrite attempts_app sleeps_app timeline_app closes_app app_nil_r : trace.

(** Reduces an observation on a trace built from requests, sleeps and quiet
    events to the requests and sleeps alone. *)
Ltac observe :=
  unfold after_body, get_event; cbn [trace self fst snd app];
  repeat match goal with
         | |- context [?tr ++ ?ev :: ?evs] =>
             lazymatch evs with
             | [] => fail
             | _ => change (tr ++ ev :: evs) with (tr ++ [ev] ++ evs)
             end
         end;
  autorewrite with trace;
  repeat match goal with
         | H : forallb is_quiet ?evs = true |- _ =>
             progress rewrite ?(quiet_attempts _ H), ?(quiet_sleeps _ H),
               ?(quiet_timeline _ H)
         end;
  cbn.

(** C6. When the first attempt is answered with status 503 and the second
    with status 200, the session makes exactly two physical requests with
    one sleep of 2.5 seconds between them, and the object's [response] is
    the response object of the second attempt. *)
Theorem retry_then_ok
    (fuel draw : nat) (net : nat -> GetOutcome) (url : string) (stream : bool)
    (r1 r2 : Response) :
  net 0%nat = Responds r1 -> status_code r1 = 503 ->
  net 1%nat = Responds r2 -> status_code r2 = 200 ->
  let run := new_Request (S (S fuel)) draw net url stream in
  fst run = Val (Some tt) /\
  response (self (snd run)) = Bound (Some r2) /\
  status (self (snd run)) = Some 200 /\
  attempts (trace (snd run)) = 2%nat /\
  sleeps (trace (snd run)) = [5 # 2] /\
  timeline (trace (snd run)) = [Attempt; Sleep (5 # 2); Attempt].
Proof.
  intros Hnet1 Hst1 Hnet2 Hst2 run. subst run.
  set (w0 := loop_entry draw net url stream).
  assert (Hin1 : status_in (Some (status_code r1)) (retry_status (self w0)) = true)
    by (rewrite Hst1; reflexivity).
  destruct (while_retry (S fuel) w0 Unbound r1 eq_refl Hnet1 Hin1)
    as (evs1 & Hq1 & Hrun1); [cbn; lia|].
  set (w1 := after_body w0 (Some (status_code r1)) (attempt (self w0) + 1)
               (evs1 ++ [EvSleep (retry_sleep (self w0))])) in Hrun1.
  assert (Hloop2 : status_is (status (self w1)) codes_ok = false)
    by (cbn; rewrite Hst1; reflexivity).
  assert (Hin2 : status_in (Some (status_code r2)) (retry_status (self w1)) = false)
    by (rewrite Hst2; reflexivity).
  destruct (while_break fuel w1 (Bound (Some r1)) r2 Hloop2 Hnet2 Hin2)
    as (evs2 & Hq2 & Hrun2).
  rewrite new_Request_unfold. fold w0. rewrite Hrun1, Hrun2.
  cbn [conclude fst snd]. rewrite Hst2. subst w1 w0.
  repeat split; observe; reflexivity.
Qed.

Lemma retry_then_ok_witness :
  let net := fun k => match k with
                      | O => Responds (mkResponse 0 503)
                      | _ => Responds (mkResponse 1 200)
                      end in
  let run := new_Request 2 0 net "http://host/pack" false in
  fst run = Val (Some tt) /\
  response (self (snd run)) = Bound (Some (mkResponse 1 200)) /\
  status (self (snd run)) = Some 200 /\
  attempts (trace (snd run)) = 2%nat /\
  sleeps (trace (snd run)) = [5 # 2] /\
  timeline (trace (snd run)) = [Attempt; Sleep (5 # 2); Attempt].
Proof.
  intros net.
  apply (retry_then_ok 0 0 net "http://host/pack" false
           (mkResponse 0 503) (mkResponse 1 200)); reflexivity.
Defined.

(** C1, as the code has it. When every physical attempt is answered with a
    status among 500, 503 and 504, the session makes exactly three physical
    requests (one initial attempt and two retries), sleeps 2.5 seconds
    between consecutive attempts, and completes with the response object of
    the last attempt; the attempt counter ends at 4. *)
Theorem persistent_retryable_three_requests
    (fuel draw : nat) (net : nat -> GetOutcome) (url : string) (stream : bool) :
  (forall k, is_retryable [500; 503; 504] (net k) = true) ->
  let run := new_Request (3 + fuel) draw net url stream in
  fst run = Val (Some tt) /\
  (exists r, net 2%nat = Responds r /\
             response (self (snd run)) = Bound (Some r) /\
             status (self (snd run)) = Some (status_code r)) /\
  attempt (self (snd run)) = 4 /\
  attempts (trace (snd run)) = 3%nat /\
  sleeps (trace (snd run)) = [5 # 2; 5 # 2] /\
  timeline (trace (snd run)) = [Attempt; Sleep (5 # 2); Attempt; Sleep (5 # 2); Attempt].
Proof.
  intros Hall run. subst run.
  destruct (retryable_responds _ _ (Hall 0%nat)) as (r0 & Hnet0 & Hin0).
  destruct (retryable_responds _ _ (Hall 1%nat)) as (r1 & Hnet1 & Hin1).
  destruct (retryable_responds _ _ (Hall 2%nat)) as (r2 & Hnet2 & Hin2).
  set (w0 := loop_entry draw net url stream).
  destruct (while_retry (2 + fuel) w0 Unbound r0 eq_refl Hnet0 Hin0)
    as (evs0 & Hq0 & Hrun0); [cbn; lia|].
  set (w1 := after_body w0 (Some (status_code r0)) (attempt (self w0) + 1)
               (evs0 ++ [EvSleep (retry_sleep (self w0))])) in Hrun0.
  destruct (while_retry (1 + fuel) w1 (Bound (Some r0)) r1
              (retryable_not_ok _ Hin0) Hnet1 Hin1)
    as (evs1 & Hq1 & Hrun1); [cbn; lia|].
  set (w2 := after_body w1 (Some (status_code r1)) (attempt (self w1) + 1)
               (evs1 ++ [EvSleep (retry_sleep (self w1))])) in Hrun1.
  destruct (while_exhausted fuel w2 (Bound (Some r1)) r2
              (retryable_not_ok _ Hin1) Hnet2 Hin2)
    as (evs2 & Hq2 & Hrun2); [cbn; lia|].
  rewrite new_Request_unfold. fold w0.
  change (3 + fuel)%nat with (S (2 + fuel)). rewrite Hrun0.
  change (2 + fuel)%nat with (S (1 + fuel)). rewrite Hrun1.
  change (1 + fuel)%nat with (S fuel). rewrite Hrun2.
  cbn [conclude fst snd]. subst w2 w1 w0.
  split; [reflexivity|]. split; [exists r2; repeat split; exact Hnet2|].
  repeat split; observe; reflexivity.
Qed.

Lemma persistent_retryable_three_requests_witness :
  let net := fun _ : nat => Responds (mkResponse 0 503) in
  let run := new_Request 3 0 net "http://host/pack" false in
  fst run = Val (Some tt) /\
  (exists r, net 2%nat = Responds r /\
             response (self (snd run)) = Bound (Some r) /\
             status (self (snd run)) = Some (status_code r)) /\
  attempt (self (snd run)) = 4 /\
  attempts (trace (snd run)) = 3%nat /\
  sleeps (trace (snd run)) = [5 # 2; 5 # 2] /\
  timeline (trace (snd run)) = [Attempt; Sleep (5 # 2); Attempt; Sleep (5 # 2); Attempt].
Proof.
  intros net.
  apply (persistent_retryable_three_requests 0 0 net "http://host/pack" false).
  intros k. reflexivity.
Defined.

(** C1, as stated, fails: a server that answers 503 to every request is
    asked three times, not four, however much fuel the loop is given. *)
Lemma persistent_503_is_not_four_requests :
  let run := new_Request 10 0 (fun _ => Responds (mkResponse 0 503))
               "http://host/pack" false in
  fst run = Val (Some tt) /\
  attempts (trace (snd run)) = 3%nat /\
  attempts (trace (snd run)) <> 4%nat.
Proof. vm_compute. repeat split. discriminate. Qed.

(** C10. Whatever the network answers and however long the loop is allowed
    to run: the attempt counter is 1 when the loop is entered; at every
    later point it is 1 plus the number of requests so far that were
    answered with a status among 500, 503 and 504, and it is at most 4; at
    most 3 physical requests are sent and at most 2 delays are slept; and 3
    iterations always suffice for the constructor to end. *)
Theorem attempt_counter_bounded
    (fuel draw : nat) (net : nat -> GetOutcome) (url : string) (stream : bool) :
  let w := snd (new_Request fuel draw net url stream) in
  attempt (self (snd (new_Request 0 draw net url stream))) = 1 /\
  sent w = attempts (trace w) /\
  attempt (self w) =
    1 + Z.of_nat (retryable_between [500; 503; 504] net 0 (attempts (trace w))) /\
  1 <= attempt (self w) <= 4 /\
  (attempts (trace w) <= 3)%nat /\
  (List.length (sleeps (trace w)) <= 2)%nat /\
  fst (new_Request (3 + fuel) draw net url stream) <> Val None.
Proof.
  intros w. subst w. split; [reflexivity|].
  rewrite !new_Request_unfold, conclude_trace, conclude_sent, conclude_attempt.
  set (w0 := loop_entry draw net url stream).
  assert (Hle : attempt (self w0) <= retry_max (self w0)) by (cbn; lia).
  destruct (while_spec fuel w0 Unbound Hle) as (evs & Hpost).
  destruct (while_spec (3 + fuel) w0 Unbound Hle) as (evs3 & Hpost3).
  destruct Hpost as [Htr _ _ _ _ Hsent Hatt Hsl Hat Hb _ _].
  cbn [trace w0 loop_entry app] in Htr. rewrite Htr.
  change (retry_status (self w0)) with [500; 503; 504] in Hatt.
  change (attempt (self w0)) with 1 in Hatt, Hsl.
  change (retry_max (self w0)) with 3 in Hsl, Hb.
  cbn -[Z.of_nat Z.add retryable_between attempts handle_get_request_while]
    in Hatt, Hsent.
  repeat split; try lia; try assumption.
  apply conclude_fuel, (post_finished _ _ _ _ _ Hpost3). cbn. lia.
Qed.

Section Failures.

Variables (draw : nat) (net : nat -> GetOutcome) (url : string) (stream : bool).

(** A first request that raises a timeout ends the session normally, with
    an absent status and an absent response. *)
Lemma session_timeout (fuel : nat) (cls : ExcClass) (detail : string) :
  net 0%nat = Fails cls detail ->
  issubclass cls Timeout = true ->
  exists msgs,
    forallb is_console msgs = true /\
    new_Request (S fuel) draw net url stream =
      (Val (Some tt),
       mkWorld (session_object draw url stream None 1 (Bound None))
         net 1 (session_get draw url stream :: msgs)).
Proof.
  intros Hnet Hcls.
  destruct (body_fails (loop_entry draw net url stream) Unbound cls detail Hnet)
    as (msgs & Hq & Hbody).
  exists msgs. split; [exact Hq|].
  rewrite new_Request_unfold, while_unfold.
  cbn [fst status_is status self loop_entry codes_ok Z.eqb].
  rewrite Hbody, Hcls. reflexivity.
Qed.

(** A first request that raises anything else escapes the constructor as an
    unbound-local fault: the status keeps its initial value and the
    object never gets its [response]. *)
Lemma session_fault (fuel : nat) (cls : ExcClass) (detail : string) :
  net 0%nat = Fails cls detail ->
  issubclass cls Timeout = false ->
  exists msgs,
    forallb is_console msgs = true /\
    new_Request (S fuel) draw net url stream =
      (Exn (UnboundLocalError "response"),
       mkWorld (session_object draw url stream (Some 0) 1 Unbound)
         net 1 (session_get draw url stream :: msgs)).
Proof.
  intros Hnet Hcls.
  destruct (body_fails (loop_entry draw net url stream) Unbound cls detail Hnet)
    as (msgs & Hq & Hbody).
  exists msgs. split; [exact Hq|].
  rewrite new_Request_unfold, while_unfold.
  cbn [fst status_is status self loop_entry codes_ok Z.eqb].
  rewrite Hbody, Hcls. reflexivity.
Qed.

(** X18. Over a whole session the responses closed are all those obtained
    when the session does not stream, and none when it does, the error
    responses dropped before a retry included. *)
Lemma session_closes (fuel : nat) :
  let w := snd (new_Request fuel draw net url stream) in
  closes (trace w) = if stream then [] else obtained net 0 (sent w).
Proof.
  intros w. subst w.
  rewrite new_Request_unfold, conclude_trace, conclude_sent.
  set (w0 := loop_entry draw net url stream).
  assert (Hle : attempt (self w0) <= retry_max (self w0)) by (cbn; lia).
  destruct (while_spec fuel w0 Unbound Hle) as (evs & Hpost).
  destruct Hpost as [Htr _ _ _ _ Hsent _ _ _ _ Hcl _].
  cbn [trace w0 loop_entry app] in Htr. rewrite Htr, Hcl, Hsent. reflexivity.
Qed.

End Failures.

(** C8. An attempt that obtains a response object returns it; when the
    session does not stream, the attempt closes that object exactly once,
    as its last action before returning, whether the status is a success or
    an HTTP error; when the session streams, the attempt does not close
    it. *)
Theorem close_unless_streaming (w : World) (r : Response) :
  net w (sent w) = Responds r ->
  exists msgs,
    let evs := msgs ++ (if stream (self w) then [] else [EvClose r]) in
    forallb is_console msgs = true /\
    make_get_request (w, Unbound) =
      (Val (Some r), (after_attempt w evs, Bound (Some r))) /\
    closes evs = (if stream (self w) then [] else [r]).
Proof.
  intros Hnet.
  destruct (make_get_request_responds w r Hnet) as (msgs & Hq & _ & Heq).
  exists msgs. cbn zeta. split; [exact Hq|]. split; [exact Heq|].
  rewrite closes_app, (console_closes _ Hq). now destruct (stream (self w)).
Qed.

Lemma close_unless_streaming_witness :
  let w := loop_entry 0 (fun _ => Responds (mkResponse 0 404)) "http://host/pack" false in
  exists msgs,
    let evs := msgs ++ (if stream (self w) then [] else [EvClose (mkResponse 0 404)]) in
    forallb is_console msgs = true /\
    make_get_request (w, Unbound) =
      (Val (Some (mkResponse 0 404)),
       (after_attempt w evs, Bound (Some (mkResponse 0 404)))) /\
    closes evs = (if stream (self w) then [] else [mkResponse 0 404]).
Proof.
  intros w. apply (close_unless_streaming w (mkResponse 0 404)). reflexivity.
Defined.

(** C9. An attempt whose request raises an exception that is not a timeout
    (too many redirects, an SSL error, any other exception of the library)
    leaves the local [response] unassigned, so the [finally] suite faults
    with an unbound-local error and the attempt raises it instead of
    returning [None]; an attempt whose request raises a timeout returns
    [None].  Only the timeout clause assigns [response]. *)
Theorem unassigned_response_faults (w : World) (cls : ExcClass) (detail : string) :
  net w (sent w) = Fails cls detail ->
  let handled := try_except make_get_request_try make_get_request_except (w, Unbound) in
  snd (snd handled) = (if issubclass cls Timeout then Bound None else Unbound) /\
  fst (make_get_request_finally (snd handled)) =
    (if issubclass cls Timeout then Val tt else Exn (UnboundLocalError "response")) /\
  fst (make_get_request (w, Unbound)) =
    (if issubclass cls Timeout then Val None else Exn (UnboundLocalError "response")).
Proof.
  intros Hnet handled.
  destruct (make_get_request_fails w cls detail Hnet) as (msgs & _ & Heq).
  assert (Hh : snd (snd handled)
               = if issubclass cls Timeout then Bound None else Unbound).
  { subst handled. destruct w as [me nt sn tr]. cbn in Hnet.
    unfold try_except, make_get_request_try, bind, get_self, requests_get.
    cbn -[append]. rewrite Hnet. destruct cls; reflexivity. }
  rewrite Heq. split; [exact Hh|].
  destruct handled as [res [w' l']]. cbn [snd] in Hh. subst l'.
  destruct (issubclass cls Timeout); split; reflexivity.
Qed.

Lemma unassigned_response_faults_witness :
  let w := loop_entry 0 (fun _ => Fails TooManyRedirects "Exceeded 30 redirects.")
             "http://host/pack" false in
  let handled := try_except make_get_request_try make_get_request_except (w, Unbound) in
  snd (snd handled) = Unbound /\
  fst (make_get_request_finally (snd handled)) = Exn (UnboundLocalError "response") /\
  fst (make_get_request (w, Unbound)) = Exn (UnboundLocalError "response").
Proof.
  intros w.
  apply (unassigned_response_faults w TooManyRedirects "Exceeded 30 redirects.").
  reflexivity.
Defined.

(** The exceptions of the library whose attempt returns [None] are the
    timeouts; each of the others faults. *)
Lemma timeout_classes (cls : ExcClass) :
  issubclass cls Timeout =
    match cls with
    | Timeout | ConnectTimeout | ReadTimeout => true
    | _ => false
    end.
Proof. destruct cls; reflexivity. Qed.

(** C3, on the code. A connection error on the first request is not
    absorbed: the handler reads the unassigned local [response], and an
    unbound-local fault leaves [make_get_request], [handle_get_request]
    and the constructor; no value is returned and the object never gets its
    [response]. *)
Theorem connection_error_escapes
    (fuel draw : nat) (net : nat -> GetOutcome) (url : string) (stream : bool)
    (detail : string) :
  net 0%nat = Fails ConnectionError detail ->
  let run := new_Request (S fuel) draw net url stream in
  fst run = Exn (UnboundLocalError "response") /\
  response (self (snd run)) = Unbound /\
  attempts (trace (snd run)) = 1%nat.
Proof.
  intros Hnet run.
  destruct (session_fault draw net url stream fuel _ _ Hnet eq_refl) as (msgs & Hq & Hrun).
  subst run. rewrite Hrun. cbn [fst snd self trace response session_object].
  repeat split. now apply single_timeline, console_quiet.
Qed.

Lemma connection_error_escapes_witness :
  let run := new_Request 1 0 (fun _ => Fails ConnectionError "Connection refused")
               "http://host/pack" false in
  fst run = Exn (UnboundLocalError "response") /\
  response (self (snd run)) = Unbound /\
  attempts (trace (snd run)) = 1%nat.
Proof.
  apply (connection_error_escapes 0 0 (fun _ => Fails ConnectionError "Connection refused")
           "http://host/pack" false "Connection refused").
  reflexivity.
Defined.

(** C4, on the code. An SSL error on the first request stops the session
    after one request and no sleep, but by an unbound-local fault that
    leaves the constructor: the status is never assigned (it keeps its
    initial 0) and the object never gets its [response]. *)
Theorem ssl_error_escapes
    (fuel draw : nat) (net : nat -> GetOutcome) (url : string) (stream : bool)
    (detail : string) :
  net 0%nat = Fails SSLError detail ->
  let run := new_Request (S fuel) draw net url stream in
  fst run = Exn (UnboundLocalError "response") /\
  status (self (snd run)) = Some 0 /\
  response (self (snd run)) = Unbound /\
  attempts (trace (snd run)) = 1%nat /\
  sleeps (trace (snd run)) = [].
Proof.
  intros Hnet run. subst run.
  destruct (session_fault draw net url stream fuel _ _ Hnet eq_refl) as (msgs & Hq & ->).
  cbn [fst snd self trace response status session_object].
  repeat split; now apply single_timeline, console_quiet.
Qed.

Lemma ssl_error_escapes_witness :
  let run := new_Request 1 0 (fun _ => Fails SSLError "certificate verify failed")
               "https://host/pack" false in
  fst run = Exn (UnboundLocalError "response") /\
  status (self (snd run)) = Some 0 /\
  response (self (snd run)) = Unbound /\
  attempts (trace (snd run)) = 1%nat /\
  sleeps (trace (snd run)) = [].
Proof.
  apply (ssl_error_escapes 0 0 (fun _ => Fails SSLError "certificate verify failed")
           "https://host/pack" false "certificate verify failed").
  reflexivity.
Defined.

(** The other half of C4 holds: a timeout on the first request ends the
    session normally after one request and no sleep, with an absent status
    and an absent response. *)
Lemma timeout_single_request
    (fuel draw : nat) (net : nat -> GetOutcome) (url : string) (stream : bool)
    (cls : ExcClass) (detail : string) :
  net 0%nat = Fails cls detail ->
  issubclass cls Timeout = true ->
  let run := new_Request (S fuel) draw net url stream in
  fst run = Val (Some tt) /\
  status (self (snd run)) = None /\
  status_in (status (self (snd run))) [500; 503; 504] = false /\
  response (self (snd run)) = Bound None /\
  attempts (trace (snd run)) = 1%nat /\
  sleeps (trace (snd run)) = [].
Proof.
  intros Hnet Hcls run. subst run.
  destruct (session_timeout draw net url stream fuel _ _ Hnet Hcls) as (msgs & Hq & ->).
  cbn [fst snd self trace response status session_object].
  repeat split; now apply single_timeline, console_quiet.
Qed.


(** * [safe_print] among threads *)

Section ConsoleFacts.

Import Console.

Lemma length_update {A} (n : nat) (x : A) (l : list A) :
  List.length (update n x l) = List.length l.
Proof.
  revert n; induction l as [|h t IH]; intros [|n]; cbn; try reflexivity.
  now rewrite IH.
Qed.

Lemma nth_error_update_eq {A} (n : nat) (x y : A) (l : list A) :
  nth_error l n = Some y -> nth_error (update n x l) n = Some x.
Proof.
  revert n; induction l as [|h t IH]; intros [|n]; cbn; try discriminate.
  - reflexivity.
  - apply IH.
Qed.

Lemma nth_error_update_neq {A} (n m : nat) (x : A) (l : list A) :
  n <> m -> nth_error (update n x l) m = nth_error l m.
Proof.
  revert n m; induction l as [|h t IH]; intros [|n] [|m] Hnm; cbn;
    try reflexivity; try congruence.
  apply IH. congruence.
Qed.

Lemma callers_private (messages : list string) : private_locks (callers messages).
Proof.
  assert (H : forall i pc, nth_error (threads (callers messages)) i = Some pc ->
              lock_of pc = None).
  { intros i pc Hi. apply nth_error_In in Hi. cbn in Hi.
    apply in_map_iff in Hi as (m & <- & _). reflexivity. }
  constructor.
  - intros i l m Hi. apply H in Hi. discriminate.
  - intros i pc l Hi Hl. apply H in Hi. congruence.
  - intros i j pi pj l Hi _ Hl. apply H in Hi. congruence.
Qed.

Lemma step_private (i : nat) (s s' : State) :
  private_locks s -> step i s = Some s' -> private_locks s'.
Proof.
  intros [Hfree Hex Hpriv]. unfold step.
  destruct (nth_error (threads s) i) as [pc|] eqn:Hi; [|discriminate].
  assert (Hat : forall j pc' q, nth_error (update i pc' (threads s)) j = Some q ->
            (j = i /\ q = pc') \/ (j <> i /\ nth_error (threads s) j = Some q)).
  { intros j pc' q Hj. destruct (Nat.eq_dec i j) as [<-|Hne].
    - rewrite (nth_error_update_eq _ _ _ _ Hi) in Hj. left. split; congruence.
    - rewrite nth_error_update_neq in Hj by exact Hne. right. split; congruence. }
  destruct pc as [m|l m|l [|text rest]|]; cbn [step_pc]; try discriminate.
  - (* Lock() *)
    intros [= <-]. constructor; cbn [locks threads].
    + intros j l m' Hj. apply Hat in Hj as [[-> [= -> ->]]|[Hne Hj]].
      * rewrite nth_error_app2, Nat.sub_diag by lia. reflexivity.
      * rewrite nth_error_app1 by (eapply Hex; [exact Hj|reflexivity]).
        eapply Hfree, Hj.
    + intros j q l Hj Hl. rewrite length_app. cbn.
      apply Hat in Hj as [[-> ->]|[Hne Hj]].
      * cbn in Hl. injection Hl as <-. lia.
      * specialize (Hex _ _ _ Hj Hl). lia.
    + intros j k pj pk l Hj Hk Hlj Hlk.
      apply Hat in Hj as [[-> ->]|[Hnej Hj]]; apply Hat in Hk as [[-> ->]|[Hnek Hk]].
      * reflexivity.
      * cbn in Hlj. injection Hlj as <-. specialize (Hex _ _ _ Hk Hlk). lia.
      * cbn in Hlk. injection Hlk as <-. specialize (Hex _ _ _ Hj Hlj). lia.
      * eapply Hpriv; eassumption.
  - (* with print_lock: *)
    destruct (nth_error (locks s) l) as [[|]|] eqn:Hl; try discriminate.
    intros [= <-]. constructor; cbn [locks threads].
    + intros j l' m' Hj. apply Hat in Hj as [[-> [=]]|[Hne Hj]].
      rewrite nth_error_update_neq; [eapply Hfree, Hj|].
      intros <-. apply Hne. symmetry. eapply (Hpriv i j); try eassumption; reflexivity.
    + intros j q l' Hj Hl'. rewrite length_update.
      apply Hat in Hj as [[-> ->]|[Hne Hj]].
      * cbn in Hl'. injection Hl' as <-. eapply Hex; [exact Hi|reflexivity].
      * eapply Hex; eassumption.
    + intros j k pj pk l' Hj Hk Hlj Hlk.
      apply Hat in Hj as [[-> ->]|[Hnej Hj]]; apply Hat in Hk as [[-> ->]|[Hnek Hk]].
      * reflexivity.
      * symmetry. eapply (Hpriv k i); try eassumption.
      * eapply (Hpriv j i); try eassumption.
      * eapply Hpriv; eassumption.
  - (* leaving the with suite *)
    intros [= <-]. constructor; cbn [locks threads].
    + intros j l' m' Hj. apply Hat in Hj as [[-> [=]]|[Hne Hj]].
      rewrite nth_error_update_neq; [eapply Hfree, Hj|].
      intros <-. apply Hne. symmetry. eapply (Hpriv i j); try eassumption; reflexivity.
    + intros j q l' Hj Hl'. rewrite length_update.
      apply Hat in Hj as [[-> ->]|[Hne Hj]]; [discriminate|].
      eapply Hex; eassumption.
    + intros j k pj pk l' Hj Hk Hlj Hlk.
      apply Hat in Hj as [[-> ->]|[Hnej Hj]]; [discriminate|].
      apply Hat in Hk as [[-> ->]|[Hnek Hk]]; [discriminate|].
      eapply Hpriv; eassumption.
  - (* a write of print *)
    intros [= <-]. constructor; cbn [locks threads].
    + intros j l' m' Hj. apply Hat in Hj as [[-> [=]]|[Hne Hj]].
      eapply Hfree, Hj.
    + intros j q l' Hj Hl'.
      apply Hat in Hj as [[-> ->]|[Hne Hj]].
      * cbn in Hl'. injection Hl' as <-. eapply Hex; [exact Hi|reflexivity].
      * eapply Hex; eassumption.
    + intros j k pj pk l' Hj Hk Hlj Hlk.
      apply Hat in Hj as [[-> ->]|[Hnej Hj]]; apply Hat in Hk as [[-> ->]|[Hnek Hk]].
      * reflexivity.
      * symmetry. eapply (Hpriv k i); try eassumption.
      * eapply (Hpriv j i); try eassumption.
      * eapply Hpriv; eassumption.
Qed.

Lemma run_private (schedule : list nat) : forall s s',
  private_locks s -> run schedule s = Some s' -> private_locks s'.
Proof.
  induction schedule as [|i rest IH]; intros s s' Hs; cbn.
  - now intros [= <-].
  - destruct (step i s) as [s1|] eqn:Hstep; [|discriminate].
    apply IH. eapply step_private; eassumption.
Qed.

(** X8. No call of [safe_print] ever waits: whatever the messages and the
    schedule so far, every thread that has not returned can take its next
    step, the acquisition of its lock included. *)
Lemma safe_print_never_waits (messages : list string) (schedule : list nat)
    (s : State) (i : nat) (pc : Pc) :
  run schedule (callers messages) = Some s ->
  nth_error (threads s) i = Some pc ->
  pc <> Returned ->
  step i s <> None.
Proof.
  intros Hrun Hi Hpc.
  destruct (run_private _ _ _ (callers_private messages) Hrun) as [Hfree _ _].
  unfold step. rewrite Hi.
  destruct pc as [m|l m|l [|text rest]|]; cbn [step_pc]; try discriminate.
  - now rewrite (Hfree _ _ _ Hi).
  - congruence.
Qed.

(** The lock a call acquires is the one it has just created: it is not
    among the locks that existed when the call started. *)
Lemma lock_created_per_call (s : State) (i : nat) (message : string) :
  nth_error (threads s) i = Some (safe_print message) ->
  step i s =
    Some (mkState (locks s ++ [false]) (stdout s)
            (update i (AtWith (List.length (locks s)) message) (threads s))).
Proof. intros Hi. unfold step. now rewrite Hi. Qed.

End ConsoleFacts.

(** C2, on the code. Two threads call [safe_print], one with "alpha" and
    one with "beta". Each creates a lock of its own, so both are inside
    their [with] suite at the same time, each holding its own lock; their
    writes interleave and the two messages reach the output merged on one
    line. *)
Theorem two_callers_merge_lines :
  let start := Console.callers ["alpha"; "beta"] in
  (exists inside,
     Console.run [0; 1; 0; 1]%nat start = Some inside /\
     Console.locks inside = [true; true] /\
     map Console.lock_of (Console.threads inside) = [Some 0; Some 1]%nat /\
     forallb Console.in_with (Console.threads inside) = true) /\
  (exists final,
     Console.run [0; 1; 0; 1; 0; 1; 0; 1; 0; 1]%nat start = Some final /\
     Console.threads final = [Console.Returned; Console.Returned] /\
     Console.stdout final = ("alphabeta" ++ newline ++ newline)%string).
Proof.
  split; eexists; (split; [vm_compute; reflexivity|]); repeat split.
Qed.

(** Had the two calls shared one lock created beforehand, the second could
    not enter its [with] suite while the first is inside. *)
Lemma shared_lock_would_exclude :
  let start := Console.mkState [false] ""
                 [Console.AtWith 0 "alpha"; Console.AtWith 0 "beta"] in
  exists inside,
    Console.step 0 start = Some inside /\
    Console.step 1 inside = None.
Proof. eexists. split; reflexivity. Qed.

(** * More on the session *)

Section Run.

(** The run that ends in its first iteration, by a [break] or by the fault. *)
Lemma run_last (fuel : nat) (w w' : World) (res : Res Loop) (l' : Slot)
    (evs : list Event) :
  forallb is_quiet evs = true ->
  trace w' = trace w ++ get_event (self w) :: evs ->
  net w' = net w ->
  sent w' = S (sent w) ->
  config (self w') = config (self w) ->
  response (self w') = response (self w) ->
  res <> Val OutOfFuel ->
  (res = Val Finished ->
   status_in (status (self w')) (retry_status (self w)) = true ->
   retry_max (self w) < attempt (self w')) ->
  ends_with (net w (sent w)) res (status (self w')) l' ->
  loop_run fuel w res w' l' (get_event (self w) :: evs).
Proof.
  intros Hq Htr Hnet Hsent Hcfg Hresp Hres Hex Hend.
  assert (Ha : attempts (get_event (self w) :: evs) = 1%nat)
    by (rewrite attempts_after, (quiet_attempts _ Hq); reflexivity).
  constructor; try assumption.
  - rewrite Hsent, Ha. lia.
  - constructor; [reflexivity|].
    clear -Hq. induction evs as [|ev evs IH]; constructor.
    + cbn in Hq. apply andb_prop in Hq as [Hev _]. destruct ev; try discriminate; cbn; congruence.
    + apply IH. cbn in Hq. now apply andb_prop in Hq as [_ Hq].
  - assert (Ht : timeline (get_event (self w) :: evs) = [Attempt]).
    { change (get_event (self w) :: evs) with ([get_event (self w)] ++ evs).
      rewrite timeline_app, (quiet_timeline _ Hq). reflexivity. }
    rewrite Ht. destruct res as [[]|]; try (now exists 0%nat). congruence.
  - intros k Hk1 Hk2. lia.
  - intros _. rewrite Hsent. exact Hend.
Qed.

(** The run that sleeps after its first iteration and goes on. *)
Lemma run_continue (fuel : nat) (w w' : World) (res : Res Loop) (l' : Slot)
    (st : option Z) (evs evs' : list Event) :
  let w1 := after_body w st (attempt (self w) + 1)
              (evs ++ [EvSleep (retry_sleep (self w))]) in
  forallb is_quiet evs = true ->
  is_retryable (retry_status (self w)) (net w (sent w)) = true ->
  loop_run fuel w1 res w' l' evs' ->
  loop_run (S fuel) w res w' l'
    (get_event (self w) :: (evs ++ [EvSleep (retry_sleep (self w))]) ++ evs').
Proof.
  intros w1 Hq Hr [Htr Hnet Hsent Hcfg Hresp Hgets Htl Hpre Hex Hend].
  subst w1. cbn [after_body self net sent trace] in *.
  change (get_event (set_attempt (attempt (self w) + 1) (set_status st (self w))))
    with (get_event (self w)) in Hgets.
  change (retry_status (set_attempt (attempt (self w) + 1) (set_status st (self w))))
    with (retry_status (self w)) in *.
  change (retry_max (set_attempt (attempt (self w) + 1) (set_status st (self w))))
    with (retry_max (self w)) in *.
  change (retry_sleep (set_attempt (attempt (self w) + 1) (set_status st (self w))))
    with (retry_sleep (self w)) in *.
  assert (Ha : attempts (get_event (self w)
                  :: (evs ++ [EvSleep (retry_sleep (self w))]) ++ evs')
               = S (attempts evs')).
  { rewrite attempts_after by reflexivity.
    rewrite !attempts_app, (quiet_attempts _ Hq). reflexivity. }
  assert (Ht : timeline (get_event (self w)
                  :: (evs ++ [EvSleep (retry_sleep (self w))]) ++ evs')
               = Attempt :: Sleep (retry_sleep (self w)) :: timeline evs').
  { change (get_event (self w) :: (evs ++ [EvSleep (retry_sleep (self w))]) ++ evs')
      with ([get_event (self w)] ++ (evs ++ [EvSleep (retry_sleep (self w))]) ++ evs').
    rewrite !timeline_app, (quiet_timeline _ Hq). reflexivity. }
  constructor; try assumption.
  - rewrite Htr, <- app_assoc. reflexivity.
  - rewrite Hsent, Ha. lia.
  - constructor; [reflexivity|]. apply Forall_app. split; [|exact Hgets].
    apply Forall_app. split; [|constructor; [discriminate|constructor]].
    clear -Hq. induction evs as [|ev evs IH]; constructor.
    + cbn in Hq. apply andb_prop in Hq as [Hev _]. destruct ev; try discriminate; cbn; congruence.
    + apply IH. cbn in Hq. now apply andb_prop in Hq as [_ Hq].
  - rewrite Ht. destruct res as [[]|].
    + destruct Htl as [k ->]. now exists (S k).
    + now rewrite Htl.
    + destruct Htl as [k ->]. now exists (S k).
  - intros k Hk1 Hk2. destruct (Nat.eq_dec k (sent w)) as [->|Hne]; [exact Hr|].
    apply Hpre; lia.
Qed.

(** Every run of the loop of a session has this shape. *)
Lemma while_run (fuel : nat) : forall (w : World) (l : Slot),
  retry_status (self w) = [500; 503; 504] ->
  status_is (status (self w)) codes_ok = false ->
  exists evs,
    loop_run fuel w (fst (handle_get_request_while fuel (w, l)))
      (fst (snd (handle_get_request_while fuel (w, l))))
      (snd (snd (handle_get_request_while fuel (w, l)))) evs.
Proof.
  induction fuel as [|fuel IH]; intros w l Hretry Hloop.
  - exists []. cbn. constructor; cbn; rewrite ?app_nil_r, ?Nat.add_0_r;
      try reflexivity; try congruence; try lia. constructor.
  - rewrite while_unfold. cbn [fst snd]. rewrite Hloop.
    destruct (net w (sent w)) as [r|cls detail] eqn:Hnet.
    + destruct (body_responds w l r Hnet) as (evs & Hq & _ & ->).
      cbn zeta.
      destruct (status_in _ _) eqn:Hin.
      * destruct (_ >? _) eqn:Hgt.
        -- exists (get_event (self w) :: evs). cbn [fst snd].
           apply run_last; try assumption; try reflexivity; try discriminate.
           ++ intros _ _. cbn. lia.
           ++ rewrite Hnet. cbn. repeat split.
        -- destruct (IH (after_body w (Some (status_code r)) (attempt (self w) + 1)
                           (evs ++ [EvSleep (retry_sleep (self w))]))
                        (Bound (Some r))) as (evs' & Hrun).
           { exact Hretry. }
           { cbn. rewrite Hretry in Hin. exact (retryable_not_ok _ Hin). }
           eexists. eapply run_continue; try eassumption.
           rewrite Hnet. exact Hin.
      * exists (get_event (self w) :: evs). cbn [fst snd].
        apply run_last; try assumption; try reflexivity; try discriminate.
        ++ intros _. unfold after_body. cbn [self status set_attempt set_status].
           rewrite Hin. discriminate.
        ++ rewrite Hnet. cbn. repeat split.
    + destruct (body_fails w l cls detail Hnet) as (msgs & Hq & ->).
      destruct (issubclass cls Timeout) eqn:Hcls.
      * exists (get_event (self w) :: msgs). cbn [fst snd].
        apply run_last; try assumption; try reflexivity; try discriminate.
        -- now apply console_quiet.
        -- rewrite Hnet. cbn [ends_with]. rewrite Hcls. repeat split.
      * exists (get_event (self w) :: msgs). cbn [fst snd].
        apply run_last; try assumption; try reflexivity; try discriminate.
        -- now apply console_quiet.
        -- rewrite Hnet. cbn [ends_with]. rewrite Hcls. reflexivity.
Qed.

End Run.

Section Whole.

Variables (draw : nat) (net : nat -> GetOutcome) (url : string) (stream : bool).

Lemma conclude_config (r : Res Loop * (World * Slot)) :
  config (self (snd (conclude r))) = config (self (fst (snd r))).
Proof. destruct r as [[[]|e] [w [|v]]]; reflexivity. Qed.

Lemma conclude_status (r : Res Loop * (World * Slot)) :
  status (self (snd (conclude r))) = status (self (fst (snd r))).
Proof. destruct r as [[[]|e] [w [|v]]]; reflexivity. Qed.

Lemma timeline_ticks (tr : list Event) :
  attempts tr = tick_attempts (timeline tr) /\ sleeps tr = tick_sleeps (timeline tr).
Proof.
  induction tr as [|ev tr [IHa IHs]]; [split; reflexivity|].
  destruct ev; cbn; split; try assumption.
  - unfold attempts, tick_attempts in *. cbn. now rewrite IHa.
  - fold (sleeps tr). fold (timeline tr). now rewrite IHs.
Qed.

Lemma rounds_ticks (k : nat) (q : Q) :
  tick_attempts (rounds k q) = k /\ tick_sleeps (rounds k q) = repeat q k.
Proof.
  induction k as [|k [IHa IHs]]; [split; reflexivity|]. split.
  - change (tick_attempts (rounds (S k) q)) with (S (tick_attempts (rounds k q))).
    now rewrite IHa.
  - change (tick_sleeps (rounds (S k) q)) with (q :: tick_sleeps (rounds k q)).
    now rewrite IHs.
Qed.

Lemma retryable_between_le (retry : list Z) (from n : nat) :
  (retryable_between retry net from n <= n)%nat.
Proof.
  revert from; induction n as [|n IH]; intros from; cbn; [lia|].
  specialize (IH (S from)). destruct (is_retryable retry (net from)); lia.
Qed.

(** The loop of a session with enough fuel, seen through both invariants. *)
Lemma session_run (fuel : nat) :
  let w0 := loop_entry draw net url stream in
  let R := handle_get_request_while (3 + fuel) (w0, Unbound) in
  fst R <> Val OutOfFuel /\
  loop_post (3 + fuel) w0 (fst R) (fst (snd R)) (trace (fst (snd R))) /\
  loop_run (3 + fuel) w0 (fst R) (fst (snd R)) (snd (snd R)) (trace (fst (snd R))).
Proof.
  intros w0 R.
  assert (Hle : attempt (self w0) <= retry_max (self w0)) by (cbn; lia).
  destruct (while_spec (3 + fuel) w0 Unbound Hle) as (evs & Hpost).
  destruct (while_run (3 + fuel) w0 Unbound eq_refl eq_refl) as (evs' & Hrun).
  fold R in Hpost, Hrun.
  assert (He : evs = trace (fst (snd R))) by (now rewrite (post_trace _ _ _ _ _ Hpost)).
  assert (He' : evs' = trace (fst (snd R))) by (now rewrite (run_trace _ _ _ _ _ _ Hrun)).
  subst evs evs'. split; [|split; assumption].
  apply (post_finished _ _ _ _ _ Hpost). cbn. lia.
Qed.

End Whole.

(** X1. Every physical request of a session is the same request: the URL and
    the stream flag given to the constructor, the user agent drawn once at
    construction, a timeout of 10 seconds and certificate verification on;
    and the constructor leaves these fields of the object as it set them. *)
Theorem session_requests_uniform
    (fuel draw : nat) (net : nat -> GetOutcome) (url : string) (stream : bool) :
  let w := snd (new_Request fuel draw net url stream) in
  Forall (fun ev => is_get ev = true ->
                    ev = EvGet url (get_random_useragent draw) 10 true stream)
         (trace w) /\
  config (self w) =
    (10, [500; 503; 504], 3, 5 # 2, get_random_useragent draw, url, stream).
Proof.
  intros w. subst w.
  rewrite new_Request_unfold, conclude_trace, conclude_config.
  destruct (while_run fuel (loop_entry draw net url stream) Unbound eq_refl eq_refl)
    as (evs & [Htr _ _ Hcfg _ Hgets _ _ _ _]).
  cbn [trace loop_entry app] in Htr. rewrite Htr, Hcfg. split; [exact Hgets|reflexivity].
Qed.

(** X2. A session given enough iterations alternates requests and sleeps: it
    starts with a request, every retry is a sleep of 2.5 seconds followed
    by a request, there are at most two retries, and nothing is slept
    after the last request. *)
Theorem session_timeline
    (fuel draw : nat) (net : nat -> GetOutcome) (url : string) (stream : bool) :
  let w := snd (new_Request (3 + fuel) draw net url stream) in
  exists k,
    (k <= 2)%nat /\
    timeline (trace w) = Attempt :: rounds k (5 # 2) /\
    attempts (trace w) = S k /\
    sleeps (trace w) = repeat (5 # 2) k.
Proof.
  intros w. subst w.
  rewrite new_Request_unfold, conclude_trace.
  destruct (session_run draw net url stream fuel) as (Hfin & Hpost & Hrun).
  set (R := handle_get_request_while (3 + fuel) (loop_entry draw net url stream, Unbound))
    in *.
  assert (Htl : exists k, timeline (trace (fst (snd R))) = Attempt :: rounds k (5 # 2)).
  { pose proof (run_timeline _ _ _ _ _ _ Hrun) as H.
    destruct (fst R) as [[]|]; try exact H. congruence. }
  destruct Htl as [k Htl]. exists k.
  destruct (timeline_ticks (trace (fst (snd R)))) as [Ha Hs].
  rewrite Htl in Ha, Hs.
  change (tick_attempts (Attempt :: rounds k (5 # 2)))
    with (S (tick_attempts (rounds k (5 # 2)))) in Ha.
  change (tick_sleeps (Attempt :: rounds k (5 # 2)))
    with (tick_sleeps (rounds k (5 # 2))) in Hs.
  destruct (rounds_ticks k (5 # 2)) as [Hra Hrs]. rewrite Hra in Ha. rewrite Hrs in Hs.
  repeat split; try assumption.
  pose proof (post_sleeps _ _ _ _ _ Hpost) as Hb. rewrite Hs, repeat_length in Hb.
  cbn in Hb. lia.
Qed.

(** X3. How a session ends is decided by its last request alone. If it was
    answered, the constructor returns and the object holds that response
    and its status, whatever the status. If it timed out, the constructor
    returns with an absent response and an absent status. If it raised any
    other exception of the library, the constructor raises the
    unbound-local fault and the object has no [response]. Nothing else can
    leave the constructor. *)
Theorem session_outcome_by_last_request
    (fuel draw : nat) (answers : nat -> GetOutcome) (url : string) (stream : bool) :
  let run := new_Request (3 + fuel) draw answers url stream in
  let w := snd run in
  match answers (pred (sent w)) with
  | Responds r =>
      fst run = Val (Some tt) /\
      response (self w) = Bound (Some r) /\
      status (self w) = Some (status_code r)
  | Fails cls _ =>
      if issubclass cls Timeout
      then fst run = Val (Some tt) /\
           response (self w) = Bound None /\
           status (self w) = None
      else fst run = Exn (UnboundLocalError "response") /\
           response (self w) = Unbound
  end.
Proof.
  intros run w. subst w run.
  rewrite new_Request_unfold, conclude_sent.
  destruct (session_run draw answers url stream fuel) as (Hfin & _ & Hrun).
  pose proof (run_end _ _ _ _ _ _ Hrun Hfin) as Hend.
  pose proof (run_response _ _ _ _ _ _ Hrun) as Hresp.
  cbn [net loop_entry] in Hend. cbn [response self loop_entry] in Hresp.
  destruct (handle_get_request_while (3 + fuel) (loop_entry draw answers url stream, Unbound))
    as [res [w' l']].
  cbn [fst snd] in *.
  destruct (answers (pred (sent w'))) as [r|cls detail]; cbn [ends_with] in Hend.
  - destruct Hend as (-> & Hst & ->). cbn. now rewrite Hst.
  - destruct (issubclass cls Timeout).
    + destruct Hend as (-> & Hst & ->). cbn. now rewrite Hst.
    + subst res. cbn. now rewrite Hresp.
Qed.

(** X4. The number of requests of a session is fixed by the answers: there
    are between one and three; every request but the last was answered with
    a status among 500, 503 and 504; and when fewer than three were sent,
    the last one was not (it was answered with another status, or it
    raised). *)
Theorem session_request_count
    (fuel draw : nat) (answers : nat -> GetOutcome) (url : string) (stream : bool) :
  let w := snd (new_Request (3 + fuel) draw answers url stream) in
  let n := sent w in
  attempts (trace w) = n /\
  (1 <= n <= 3)%nat /\
  (forall k, (S k < n)%nat -> is_retryable [500; 503; 504] (answers k) = true) /\
  ((n < 3)%nat -> is_retryable [500; 503; 504] (answers (pred n)) = false).
Proof.
  intros w n. subst n w.
  rewrite new_Request_unfold, conclude_sent, conclude_trace.
  destruct (session_run draw answers url stream fuel) as (Hfin & Hpost & Hrun).
  pose proof (run_end _ _ _ _ _ _ Hrun Hfin) as Hend.
  pose proof (run_exhausted _ _ _ _ _ _ Hrun) as Hex.
  pose proof (run_prefix _ _ _ _ _ _ Hrun) as Hpre.
  pose proof (run_timeline _ _ _ _ _ _ Hrun) as Htl.
  destruct Hpost as [_ _ _ _ _ Hsent Hatt Hsl Hat _ _ _].
  cbn [net sent self loop_entry retry_status retry_max attempt] in *.
  destruct (handle_get_request_while (3 + fuel) (loop_entry draw answers url stream, Unbound))
    as [res [w' l']].
  cbn [fst snd] in *.
  assert (H1 : (1 <= attempts (trace w'))%nat).
  { destruct (timeline_ticks (trace w')) as [Ha _].
    assert (exists k, timeline (trace w') = Attempt :: rounds k (5 # 2)) as [k Hk]
      by (destruct res as [[]|]; [exact Htl | congruence | exact Htl]).
    rewrite Hk in Ha.
    change (tick_attempts (Attempt :: rounds k (5 # 2)))
      with (S (tick_attempts (rounds k (5 # 2)))) in Ha. lia. }
  cbn [Nat.add] in Hsent.
  split; [now rewrite Hsent|]. split; [lia|]. split.
  - intros k Hk. apply Hpre; lia.
  - intros Hlt.
    destruct (is_retryable [500; 503; 504] (answers (pred (sent w')))) eqn:Hr; [|reflexivity].
    exfalso.
    destruct (answers (pred (sent w'))) as [r|cls detail]; [|discriminate].
    cbn [ends_with is_retryable] in *. destruct Hend as (Hres & Hst & _).
    rewrite Hst in Hex. specialize (Hex Hres Hr).
    pose proof (retryable_between_le answers [500; 503; 504] 0 (attempts (trace w'))).
    lia.
Qed.

(** * More on one attempt *)

(** X5. What an answered attempt prints: nothing when the status is not a
    4XX or 5XX status; for 403 the "Forbidden" line, for every other 4XX or
    5XX status the "could not be reached" line, each followed by the text
    of the error. The response object is returned in every case, closed
    after the report unless the session streams. *)
Theorem answered_attempt_report (w : World) (r : Response) :
  net w (sent w) = Responds r ->
  let code := status_code r in
  let closing := if stream (self w) then [] else [EvClose r] in
  exists text,
    make_get_request (w, Unbound) =
      (Val (Some r),
       (after_attempt w
          ((if is_http_error code
            then [EvSafePrint
                    (if code =? 403
                     then "Forbidden: The request was not allowed"
                     else "Error: The requested resource could not be reached");
                  EvPrint text]
            else []) ++ closing),
        Bound (Some r))).
Proof.
  intros Hnet code closing. subst code closing. exists "HTTPError".
  destruct w as [me nt sn tr]. cbn in Hnet.
  unfold make_get_request, try_finally, try_except, make_get_request_try,
    bind, get_self, requests_get, raise_for_status, after_attempt, get_event.
  cbn. rewrite Hnet.
  destruct (stream me) eqn:Hs, (is_http_error (status_code r)) eqn:Herr;
    cbn; rewrite ?Hs; cbn.
  1,3: destruct (status_code r =? 403); cbn; rewrite ?Hs; cbn.
  all: rewrite <- ?app_assoc; cbn [app]; reflexivity.
Qed.

Lemma answered_attempt_report_witness :
  let w := loop_entry 0 (fun _ => Responds (mkResponse 0 403)) "http://host/pack" false in
  exists text,
    make_get_request (w, Unbound) =
      (Val (Some (mkResponse 0 403)),
       (after_attempt w
          [EvSafePrint "Forbidden: The request was not allowed"; EvPrint text;
           EvClose (mkResponse 0 403)],
        Bound (Some (mkResponse 0 403)))).
Proof.
  intros w. apply (answered_attempt_report w (mkResponse 0 403)). reflexivity.
Defined.

(** X6. A connection error that is not a timeout (a refused connection, a
    proxy error, an SSL error) is not reported at all: its handler faults
    on the unassigned [response] before it prints, so the attempt consists
    of the request alone and raises the unbound-local fault. In
    particular the message of the SSL clause is never printed. *)
Theorem connection_error_unreported (w : World) (cls : ExcClass) (detail : string) :
  net w (sent w) = Fails cls detail ->
  issubclass cls ConnectionError = true ->
  issubclass cls Timeout = false ->
  make_get_request (w, Unbound) =
    (Exn (UnboundLocalError "response"), (after_attempt w [], Unbound)).
Proof.
  intros Hnet Hconn Htime. destruct w as [me nt sn tr]. cbn in Hnet.
  unfold make_get_request, try_finally, try_except, make_get_request_try,
    make_get_request_finally, read_local, get_local,
    bind, get_self, requests_get, after_attempt, get_event.
  cbn -[append]. rewrite Hnet.
  destruct cls; try discriminate; reflexivity.
Qed.

Lemma connection_error_unreported_witness :
  let w := loop_entry 0 (fun _ => Fails SSLError "certificate verify failed")
             "https://host/pack" false in
  make_get_request (w, Unbound) =
    (Exn (UnboundLocalError "response"), (after_attempt w [], Unbound)).
Proof.
  intros w.
  apply (connection_error_unreported w SSLError "certificate verify failed");
    reflexivity.
Defined.

(** X7. The user agent of a session is always one of the fifteen strings of
    the pool, and each of them can be drawn. *)
Theorem useragent_from_pool :
  (forall draw, In (get_random_useragent draw) user_agents) /\
  (forall ua, In ua user_agents -> exists draw, get_random_useragent draw = ua).
Proof.
  split.
  - intros draw. unfold get_random_useragent. apply nth_In.
    apply Nat.mod_upper_bound. discriminate.
  - intros ua Hin. destruct (In_nth _ _ "" Hin) as (n & Hn & Hnth).
    exists n. unfold get_random_useragent.
    rewrite (Nat.mod_small n (List.length user_agents) Hn). exact Hnth.
Qed.

(** * More on [safe_print] among threads *)

Section ConsoleMore.

Import Console.

Lemma update_update {A} (n : nat) (x y : A) (l : list A) :
  update n x (update n y l) = update n x l.
Proof.
  revert n; induction l as [|h t IH]; intros [|n]; cbn; try reflexivity.
  now rewrite IH.
Qed.

Lemma update_last {A} (x y : A) (l : list A) :
  update (List.length l) x (l ++ [y]) = l ++ [x].
Proof. induction l as [|h t IH]; cbn; [reflexivity|now rewrite IH]. Qed.

Lemma nth_error_last {A} (x : A) (l : list A) :
  nth_error (l ++ [x]) (List.length l) = Some x.
Proof. induction l as [|h t IH]; cbn; [reflexivity|exact IH]. Qed.

Lemma string_append_assoc (a b c : string) :
  ((a ++ b) ++ c)%string = (a ++ b ++ c)%string.
Proof. induction a as [|ch a IH]; cbn; [reflexivity|now rewrite IH]. Qed.

Lemma string_length_append (a b : string) :
  String.length (a ++ b) = (String.length a + String.length b)%nat.
Proof. induction a as [|ch a IH]; cbn; [reflexivity|now rewrite IH]. Qed.

End ConsoleMore.

(** X9. A call of [safe_print] that runs without another thread stepping in
    between appends exactly its message and a line end to the output, and
    leaves behind one more lock, released. *)
Theorem safe_print_alone (s : Console.State) (i : nat) (message : string) :
  nth_error (Console.threads s) i = Some (Console.safe_print message) ->
  Console.run [i; i; i; i; i] s =
    Some (Console.mkState
            (Console.locks s ++ [false])
            (Console.stdout s ++ message ++ newline)%string
            (Console.update i Console.Returned (Console.threads s))).
Proof.
  intros Hi. destruct s as [lk out ts].
  cbn [Console.threads Console.locks Console.stdout] in *.
  unfold Console.run, Console.step.
  cbn [Console.threads Console.locks Console.stdout].
  rewrite Hi.
  repeat (progress
            (cbn [Console.step_pc Console.safe_print Console.print_writes
                  Console.threads Console.locks Console.stdout];
             rewrite ?(nth_error_update_eq _ _ _ _ Hi), ?nth_error_last,
               ?update_last, ?update_update)).
  now rewrite string_append_assoc.
Qed.

Lemma safe_print_alone_witness :
  let s := Console.mkState [true] "x"
             [Console.AtPrint 0 [newline]; Console.safe_print "beta"] in
  Console.run [1; 1; 1; 1; 1]%nat s =
    Some (Console.mkState [true; false] ("x" ++ "beta" ++ newline)%string
            [Console.AtPrint 0 [newline]; Console.Returned]).
Proof.
  intros s. apply (safe_print_alone s 1 "beta"). reflexivity.
Defined.

Section LockDiscipline.

Import Console.

Lemma nth_error_update_same {A} (n : nat) (x y : A) (l : list A) :
  nth_error (update n x l) n = Some y -> y = x.
Proof.
  revert n; induction l as [|h t IH]; intros [|n]; cbn; try discriminate.
  - congruence.
  - apply IH.
Qed.

Lemma update_cases (i j : nat) (pc pc' q : Pc) (ts : list Pc) :
  nth_error ts i = Some pc ->
  nth_error (update i pc' ts) j = Some q ->
  (j = i /\ q = pc') \/ (j <> i /\ nth_error ts j = Some q).
Proof.
  intros Hi Hj. destruct (Nat.eq_dec i j) as [<-|Hne].
  - rewrite (nth_error_update_eq _ _ _ _ Hi) in Hj. left. split; congruence.
  - rewrite nth_error_update_neq in Hj by exact Hne. right. split; congruence.
Qed.

Lemma step_held (i : nat) (s s' : State) :
  private_locks s -> held_inside s -> step i s = Some s' -> held_inside s'.
Proof.
  intros [Hfree Hex Hpriv] Hheld. unfold step.
  destruct (nth_error (threads s) i) as [pc|] eqn:Hi; [|discriminate].
  destruct pc as [m|l0 m|l0 [|text rest]|]; cbn [step_pc]; try discriminate.
  - (* Lock() *)
    intros [= <-] l. cbn [locks threads]. split.
    + intros Hl.
      assert (Hlt : (l < List.length (locks s))%nat).
      { destruct (Nat.lt_trichotomy l (List.length (locks s))) as [H|[->|H]];
          [exact H| |].
        - rewrite nth_error_last in Hl. discriminate.
        - assert (Hnone : nth_error (locks s ++ [false]) l = None)
            by (apply nth_error_None; rewrite length_app; cbn; lia).
          congruence. }
      rewrite nth_error_app1 in Hl by exact Hlt.
      apply Hheld in Hl as (j & ws & Hj). exists j, ws.
      rewrite nth_error_update_neq; [exact Hj|]. intros <-. congruence.
    + intros (j & ws & Hj).
      destruct (update_cases _ _ _ _ _ _ Hi Hj) as [[_ [=]]|[_ Hj']].
      assert (Hl : nth_error (locks s) l = Some true) by (apply Hheld; eauto).
      rewrite nth_error_app1; [exact Hl|]. apply nth_error_Some. congruence.
  - (* with print_lock: *)
    destruct (nth_error (locks s) l0) as [[|]|] eqn:Hl0; try discriminate.
    intros [= <-] l. cbn [locks threads]. split.
    + intros Hl. destruct (Nat.eq_dec l0 l) as [<-|Hne].
      * exists i, (print_writes m). now apply (nth_error_update_eq _ _ _ _ Hi).
      * rewrite nth_error_update_neq in Hl by exact Hne.
        apply Hheld in Hl as (j & ws & Hj). exists j, ws.
        rewrite nth_error_update_neq; [exact Hj|]. intros <-. congruence.
    + intros (j & ws & Hj).
      destruct (update_cases _ _ _ _ _ _ Hi Hj) as [[_ [= <- _]]|[_ Hj']].
      * now apply (nth_error_update_eq _ _ _ _ Hl0).
      * assert (Hl : nth_error (locks s) l = Some true) by (apply Hheld; eauto).
        rewrite nth_error_update_neq; [exact Hl|]. intros <-. congruence.
  - (* leaving the with suite *)
    intros [= <-] l. cbn [locks threads]. split.
    + intros Hl. destruct (Nat.eq_dec l0 l) as [<-|Hne].
      * apply nth_error_update_same in Hl. discriminate.
      * rewrite nth_error_update_neq in Hl by exact Hne.
        apply Hheld in Hl as (j & ws & Hj). exists j, ws.
        rewrite nth_error_update_neq; [exact Hj|]. intros <-. congruence.
    + intros (j & ws & Hj).
      destruct (update_cases _ _ _ _ _ _ Hi Hj) as [[_ [=]]|[Hne Hj']].
      assert (Hl : nth_error (locks s) l = Some true) by (apply Hheld; eauto).
      rewrite nth_error_update_neq; [exact Hl|]. intros <-.
      apply Hne. eapply (Hpriv j i); try eassumption; reflexivity.
  - (* a write of print *)
    intros [= <-] l. cbn [locks threads]. split.
    + intros Hl. apply Hheld in Hl as (j & ws & Hj).
      destruct (Nat.eq_dec i j) as [<-|Hne].
      * exists i, rest. rewrite Hi in Hj. injection Hj as <- _.
        now apply (nth_error_update_eq _ _ _ _ Hi).
      * exists j, ws. now rewrite nth_error_update_neq.
    + intros (j & ws & Hj).
      destruct (update_cases _ _ _ _ _ _ Hi Hj) as [[_ [= <- _]]|[_ Hj']];
        apply Hheld; eauto.
Qed.

Lemma callers_held (messages : list string) : held_inside (callers messages).
Proof.
  intros l. cbn. split.
  - destruct l; discriminate.
  - intros (i & ws & Hi). apply nth_error_In, in_map_iff in Hi as (m & [=] & _).
Qed.

Lemma run_held (schedule : list nat) : forall s s',
  private_locks s -> held_inside s -> run schedule s = Some s' -> held_inside s'.
Proof.
  induction schedule as [|i rest IH]; intros s s' Hp Hh; cbn.
  - now intros [= <-].
  - destruct (step i s) as [s1|] eqn:Hstep; [|discriminate].
    apply IH; [eapply step_private | eapply step_held]; eassumption.
Qed.

End LockDiscipline.

(** X10. At every point of every interleaving of calls of [safe_print], a
    lock is held exactly while the call that created it is inside its
    [with] suite; so once every call has returned, no lock is left held. *)
Theorem locks_held_only_inside
    (messages : list string) (schedule : list nat) (s : Console.State) :
  Console.run schedule (Console.callers messages) = Some s ->
  held_inside s /\
  ((forall pc, In pc (Console.threads s) -> pc = Console.Returned) ->
   Forall (fun held => held = false) (Console.locks s)).
Proof.
  intros Hrun.
  assert (Hh : held_inside s)
    by (eapply run_held; [apply callers_private | apply callers_held | exact Hrun]).
  split; [exact Hh|]. intros Hdone. apply Forall_forall. intros [|] Hin; [|reflexivity].
  apply In_nth_error in Hin as (l & Hl). apply Hh in Hl as (i & ws & Hi).
  apply nth_error_In, Hdone in Hi. discriminate.
Qed.

Lemma locks_held_only_inside_witness :
  let s := Console.mkState [false; true] ("alpha" ++ newline)
             [Console.Returned; Console.AtPrint 1 (Console.print_writes "beta")] in
  held_inside s /\
  ((forall pc, In pc (Console.threads s) -> pc = Console.Returned) ->
   Forall (fun held => held = false) (Console.locks s)).
Proof.
  intros s.
  apply (locks_held_only_inside ["alpha"; "beta"] [0; 0; 0; 0; 0; 1; 1]%nat s).
  vm_compute. reflexivity.
Defined.

Section OutputSize.

Import Console.

Lemma pending_update (i : nat) (pc pc' : Pc) (ts : list Pc) :
  nth_error ts i = Some pc ->
  (list_sum (map pending (update i pc' ts)) + pending pc
   = list_sum (map pending ts) + pending pc')%nat.
Proof.
  revert i; induction ts as [|h t IH]; intros [|i]; cbn [nth_error]; try discriminate.
  - intros [= ->]. cbn [update map list_sum fold_right]. fold (list_sum (map pending t)). lia.
  - intros Hi. specialize (IH _ Hi).
    cbn [update map list_sum fold_right].
    fold (list_sum (map pending t)). fold (list_sum (map pending (update i pc' t))). lia.
Qed.

Lemma step_pending (i : nat) (s s' : State) :
  step i s = Some s' ->
  (String.length (stdout s') + list_sum (map pending (threads s'))
   = String.length (stdout s) + list_sum (map pending (threads s)))%nat.
Proof.
  unfold step.
  destruct (nth_error (threads s) i) as [pc|] eqn:Hi; [|discriminate].
  destruct pc as [m|l m|l [|text rest]|]; cbn [step_pc]; try discriminate.
  - intros [= <-]. cbn [stdout threads].
    pose proof (pending_update i _ (AtWith (List.length (locks s)) m) _ Hi) as H.
    cbn [pending] in H. lia.
  - destruct (nth_error (locks s) l) as [[|]|]; try discriminate.
    intros [= <-]. cbn [stdout threads].
    pose proof (pending_update i _ (AtPrint l (print_writes m)) _ Hi) as H.
    cbn [pending] in H. lia.
  - intros [= <-]. cbn [stdout threads].
    pose proof (pending_update i _ Returned _ Hi) as H.
    cbn [pending map list_sum fold_right] in H. lia.
  - intros [= <-]. cbn [stdout threads].
    pose proof (pending_update i _ (AtPrint l rest) _ Hi) as H.
    rewrite string_length_append.
    cbn [pending map list_sum fold_right] in H.
    fold (list_sum (map String.length rest)) in H. lia.
Qed.

Lemma callers_pending (messages : list string) :
  list_sum (map pending (threads (callers messages)))
  = list_sum (map (fun m => String.length m + 1)%nat messages).
Proof.
  cbn [callers threads]. induction messages as [|m ms IH]; [reflexivity|].
  cbn [map list_sum fold_right] in *.
  fold (list_sum (map pending (map safe_print ms))).
  fold (list_sum (map (fun m => String.length m + 1)%nat ms)).
  rewrite IH. cbn. lia.
Qed.

End OutputSize.

(** X11. No interleaving of calls of [safe_print] loses or adds output: at
    every point the characters written so far and the characters the calls
    have still to write add up to the lengths of all messages, one line end
    each; so once every call has returned the output has exactly that many
    characters. *)
Theorem output_complete
    (messages : list string) (schedule : list nat) (s : Console.State) :
  Console.run schedule (Console.callers messages) = Some s ->
  let total := list_sum (map (fun m => String.length m + 1)%nat messages) in
  (String.length (Console.stdout s) + list_sum (map pending (Console.threads s))
   = total)%nat /\
  ((forall pc, In pc (Console.threads s) -> pc = Console.Returned) ->
   String.length (Console.stdout s) = total).
Proof.
  intros Hrun total.
  assert (Hinv : (String.length (Console.stdout s)
                  + list_sum (map pending (Console.threads s)) = total)%nat).
  { subst total. rewrite <- callers_pending.
    change (list_sum (map pending (Console.threads (Console.callers messages))))
      with (String.length (Console.stdout (Console.callers messages))
            + list_sum (map pending (Console.threads (Console.callers messages))))%nat.
    revert Hrun. generalize (Console.callers messages).
    induction schedule as [|i rest IH]; intros s0; cbn [Console.run].
    - now intros [= <-].
    - destruct (Console.step i s0) as [s1|] eqn:Hstep; [|discriminate].
      intros Hrun. rewrite (IH _ Hrun). exact (step_pending _ _ _ Hstep). }
  split; [exact Hinv|]. intros Hdone.
  assert (Hz : list_sum (map pending (Console.threads s)) = 0%nat).
  { clear -Hdone. induction (Console.threads s) as [|pc ts IH]; [reflexivity|].
    cbn [map list_sum fold_right]. fold (list_sum (map pending ts)).
    rewrite (Hdone pc (or_introl eq_refl)), IH; [reflexivity|].
    intros q Hq. apply Hdone. now right. }
  lia.
Qed.

Lemma output_complete_witness :
  let s := Console.mkState [true; true] "alphabeta"
             [Console.AtPrint 0 [newline]; Console.AtPrint 1 [newline]] in
  let total := list_sum (map (fun m => String.length m + 1)%nat ["alpha"; "beta"]) in
  (String.length (Console.stdout s) + list_sum (map pending (Console.threads s))
   = total)%nat /\
  ((forall pc, In pc (Console.threads s) -> pc = Console.Returned) ->
   String.length (Console.stdout s) = total).
Proof.
  intros s.
  apply (output_complete ["alpha"; "beta"] [0; 1; 0; 1; 0; 1]%nat s).
  vm_compute. reflexivity.
Defined.

(** The second caller reaches its [with] statement while the first is
    inside its own, and it steps in. *)
Lemma safe_print_never_waits_witness :
  let s := Console.mkState [true; false] ""
             [Console.AtPrint 0 (Console.print_writes "alpha"); Console.AtWith 1 "beta"] in
  Console.step 1 s <> None.
Proof.
  intros s.
  apply (safe_print_never_waits ["alpha"; "beta"] [0; 1; 0]%nat s 1 (Console.AtWith 1 "beta")).
  - vm_compute. reflexivity.
  - reflexivity.
  - discriminate.
Defined.

(** * Paths and the command line *)


(** X13. Provided [Path.resolve] returns an absolute path that is not a
    symbolic link, so does [get_full_path]; it returns a path that is
    already absolute and not a symbolic link unchanged, and applying it
    twice is applying it once. *)
Theorem get_full_path_absolute (os : Paths.Os) (path : Paths.PathLike) :
  (forall q, Paths.is_absolute os (Paths.resolve os q) = true) ->
  (forall q, Paths.is_symlink os (Paths.resolve os q) = false) ->
  let p := Paths.get_path_as_path_obj os path in
  let full := Paths.get_full_path os path in
  Paths.is_absolute os full = true /\
  Paths.is_symlink os full = false /\
  Paths.get_full_path os (Paths.PathObj full) = full /\
  (Paths.is_absolute os p = true -> Paths.is_symlink os p = false -> full = p).
Proof.
  intros Habs Hlink p full. subst p full.
  unfold Paths.get_full_path. cbn [Paths.get_path_as_path_obj].
  set (p := Paths.get_path_as_path_obj os path).
  destruct (Paths.is_absolute os p) eqn:Ha, (Paths.is_symlink os p) eqn:Hl; cbn [negb orb].
  - rewrite Habs, Hlink. cbn. repeat split; auto. discriminate.
  - rewrite Ha, Hl. cbn. repeat split; auto.
  - rewrite Habs, Hlink. cbn. repeat split; auto. discriminate.
  - rewrite Habs, Hlink. cbn. repeat split; auto. discriminate.
Qed.

Lemma get_full_path_absolute_witness :
  let os := Paths.mkOs Paths.mkPath (fun p => String.prefix "/" (Paths.text p))
              (fun _ => None) (fun _ => false) (fun _ => Paths.mkPath "/home/user/packs")
              (fun _ => false) (fun _ => false) (Paths.mkPath "/home/user")
              (fun _ => None) in
  let path := Paths.Str "packs" in
  let p := Paths.get_path_as_path_obj os path in
  let full := Paths.get_full_path os path in
  Paths.is_absolute os full = true /\
  Paths.is_symlink os full = false /\
  Paths.get_full_path os (Paths.PathObj full) = full /\
  (Paths.is_absolute os p = true -> Paths.is_symlink os p = false -> full = p).
Proof.
  intros os path.
  apply (get_full_path_absolute os path); intros q; reflexivity.
Defined.

Section ValidateArgs.

Import Paths Cli.

Variable os : Os.

(** Every way [validate_args] can go when the packs are not listed. *)
Lemma validate_args_cases (a : Arguments) :
  list_packs a = false ->
  let target := target_of os a in
  let note_cwd :=
    match directory a with
    | None => if verbose a
              then [Printed "Download directory not specified, using current working directory"]
              else []
    | Some _ => []
    end in
  let note_create :=
    if verbose a then [Printed "Download directory does not exist, creating"] else [] in
  validate_args os a [] =
    match is_valid_path os (PathObj target) false with
    | inr true => (inr (set_directory target a), note_cwd)
    | inr false =>
        if exists_ os target then (inl FileExistsError, note_cwd ++ note_create)
        else match mkdir_refused os target with
             | Some e => (inl e, note_cwd ++ note_create)
             | None => (inr (set_directory target a),
                        note_cwd ++ note_create ++ [MadeDirs target])
             end
    | inl e => (inl e, note_cwd)
    end.
Proof.
  intros Hlist target note_cwd note_create. subst target note_cwd note_create.
  unfold validate_args, target_of, andthen. rewrite Hlist.
  destruct (directory a) as [d|], (verbose a); cbn [pure print app];
    match goal with
    | |- context [is_valid_path os ?p false] =>
        destruct (is_valid_path os p false) as [e|[|]] eqn:Hv
    end; cbn [lift pure throw negb print app]; try reflexivity;
    unfold mkdir_parents;
    match goal with
    | |- context [exists_ os ?p] => destruct (exists_ os p)
    end; cbn [throw]; try reflexivity;
    match goal with
    | |- context [mkdir_refused os ?p] => destruct (mkdir_refused os p)
    end; reflexivity.
Qed.

End ValidateArgs.

(** X14. With [list_packs] set, [validate_args] prints the heading and the
    one known pack and leaves by [SystemExit]: whatever the other
    arguments and the file system, no directory is looked at or created. *)
Theorem list_packs_exits (os : Paths.Os) (a : Cli.Arguments) :
  Cli.list_packs a = true ->
  Cli.validate_args os a [] =
    (inl Paths.SystemExit,
     [Cli.Printed ("Listing available packs" ++ newline ++ "=======================");
      Cli.Printed "FTB Interactions : 5"]).
Proof.
  intros Hlist. unfold Cli.validate_args, Cli.andthen. rewrite Hlist. reflexivity.
Qed.

Lemma list_packs_exits_witness :
  let os := Paths.mkOs Paths.mkPath (fun _ => true) (fun _ => None) (fun _ => false)
              (fun p => p) (fun _ => false) (fun _ => false) (Paths.mkPath "/home/user")
              (fun _ => Some Paths.PermissionError) in
  let a := Cli.mkArguments None true (Some (Paths.Str "/root/packs")) false true in
  Cli.validate_args os a [] =
    (inl Paths.SystemExit,
     [Cli.Printed ("Listing available packs" ++ newline ++ "=======================");
      Cli.Printed "FTB Interactions : 5"]).
Proof.
  intros os a. apply (list_packs_exits os a). reflexivity.
Defined.

(** X15. A target that exists but is not accessible (a directory that is
    not writable, a regular file that is not readable) is taken for a
    missing one: [validate_args] tries to create it and raises
    [FileExistsError]; nothing is created. *)
Theorem inaccessible_target_raises (os : Paths.Os) (a : Cli.Arguments) :
  Cli.list_packs a = false ->
  let target := Cli.target_of os a in
  (Paths.kind os target = Some Paths.Directory /\ Paths.access_W_OK os target = false) \/
  (Paths.kind os target = Some Paths.RegularFile /\ Paths.access_R_OK os target = false) ->
  fst (Cli.validate_args os a []) = inl Paths.FileExistsError /\
  forallb Cli.is_printed (snd (Cli.validate_args os a [])) = true.
Proof.
  intros Hlist target Hbad. subst target.
  rewrite (validate_args_cases os a Hlist).
  unfold Paths.is_valid_path, Paths.is_valid_path_try, Paths.exists_, Paths.is_file,
    Paths.is_dir.
  cbn [Paths.get_path_as_path_obj negb andb].
  destruct Hbad as [[-> ->]|[-> ->]];
    destruct (Cli.directory a), (Cli.verbose a); split; reflexivity.
Qed.

Lemma inaccessible_target_raises_witness :
  let os := Paths.mkOs Paths.mkPath (fun _ => true) (fun _ => Some Paths.Directory)
              (fun _ => false) (fun p => p) (fun _ => true) (fun _ => false)
              (Paths.mkPath "/home/user") (fun _ => None) in
  let a := Cli.mkArguments (Some 5) false (Some (Paths.Str "/srv/packs")) false false in
  fst (Cli.validate_args os a []) = inl Paths.FileExistsError /\
  forallb Cli.is_printed (snd (Cli.validate_args os a [])) = true.
Proof.
  intros os a. apply (inaccessible_target_raises os a); [reflexivity|].
  left. split; reflexivity.
Defined.

(** X16. When [validate_args] returns, it returns the arguments it was
    given with [directory] replaced by the target as a [Path] (the given
    directory made full, or the current working directory) and nothing else
    changed. Either the target existed and was accessible, and nothing was
    created (a readable regular file passes for a directory); or nothing
    existed there and the last thing done was to create it. *)
Theorem validate_args_returns (os : Paths.Os) (a a' : Cli.Arguments) :
  fst (Cli.validate_args os a []) = inr a' ->
  let target := Cli.target_of os a in
  let effects := snd (Cli.validate_args os a []) in
  Cli.list_packs a = false /\
  a' = Cli.mkArguments (Cli.id a) false (Some (Paths.PathObj target))
         (Cli.include_forge a) (Cli.verbose a) /\
  ((Paths.is_valid_path os (Paths.PathObj target) false = inr true /\
    forallb Cli.is_printed effects = true) \/
   (Paths.kind os target = None /\
    exists notes, effects = notes ++ [Cli.MadeDirs target] /\
                  forallb Cli.is_printed notes = true)).
Proof.
  intros Hret target effects. subst target effects.
  destruct (Cli.list_packs a) eqn:Hlist.
  { unfold Cli.validate_args, Cli.andthen in Hret. rewrite Hlist in Hret.
    discriminate. }
  split; [reflexivity|].
  rewrite (validate_args_cases os a Hlist) in *.
  unfold Paths.is_valid_path, Paths.is_valid_path_try, Paths.exists_, Paths.is_file,
    Paths.is_dir in *.
  cbn [Paths.get_path_as_path_obj negb andb] in *.
  unfold Cli.set_directory in *. rewrite Hlist in *.
  destruct (Paths.kind os (Cli.target_of os a)) as [[| |]|] eqn:Hk.
  - destruct (Paths.access_R_OK os _); cbn [fst snd] in *; [|discriminate].
    injection Hret as <-. split; [reflexivity|]. left. split; [reflexivity|].
    destruct (Cli.directory a), (Cli.verbose a); reflexivity.
  - destruct (Paths.access_W_OK os _); cbn [fst snd] in *; [|discriminate].
    injection Hret as <-. split; [reflexivity|]. left. split; [reflexivity|].
    destruct (Cli.directory a), (Cli.verbose a); reflexivity.
  - cbn [fst snd] in *. injection Hret as <-. split; [reflexivity|].
    left. split; [reflexivity|].
    destruct (Cli.directory a), (Cli.verbose a); reflexivity.
  - destruct (Paths.mkdir_refused os _); cbn [fst snd] in *; [discriminate|].
    injection Hret as <-. split; [reflexivity|]. right. split; [reflexivity|].
    rewrite app_assoc. eexists. split; [reflexivity|].
    destruct (Cli.directory a), (Cli.verbose a); reflexivity.
Qed.

Lemma validate_args_returns_witness :
  let os := Paths.mkOs Paths.mkPath (fun _ => true) (fun _ => Some Paths.RegularFile)
              (fun _ => false) (fun p => p) (fun _ => true) (fun _ => false)
              (Paths.mkPath "/home/user") (fun _ => None) in
  let a := Cli.mkArguments (Some 5) false (Some (Paths.Str "/srv/readme.txt")) true false in
  let target := Cli.target_of os a in
  let effects := snd (Cli.validate_args os a []) in
  Cli.list_packs a = false /\
  Cli.set_directory target a =
    Cli.mkArguments (Cli.id a) false (Some (Paths.PathObj target))
      (Cli.include_forge a) (Cli.verbose a) /\
  ((Paths.is_valid_path os (Paths.PathObj target) false = inr true /\
    forallb Cli.is_printed effects = true) \/
   (Paths.kind os target = None /\
    exists notes, effects = notes ++ [Cli.MadeDirs target] /\
                  forallb Cli.is_printed notes = true)).
Proof.
  intros os a.
  apply (validate_args_returns os a (Cli.set_directory (Cli.target_of os a) a)).
  reflexivity.
Defined.

(** X17. Unless it lists the packs, [validate_args] prints nothing when
    [verbose] is off. *)
Theorem quiet_unless_verbose (os : Paths.Os) (a : Cli.Arguments) :
  Cli.list_packs a = false ->
  Cli.verbose a = false ->
  forallb (fun e => negb (Cli.is_printed e)) (snd (Cli.validate_args os a [])) = true.
Proof.
  intros Hlist Hverb. rewrite (validate_args_cases os a Hlist), Hverb.
  destruct (Cli.directory a);
    destruct (Paths.is_valid_path os _ false) as [e|[|]]; try reflexivity;
    destruct (Paths.exists_ os _); try reflexivity;
    destruct (Paths.mkdir_refused os _); reflexivity.
Qed.

Lemma quiet_unless_verbose_witness :
  let os := Paths.mkOs Paths.mkPath (fun _ => true) (fun _ => None)
              (fun _ => false) (fun p => p) (fun _ => true) (fun _ => true)
              (Paths.mkPath "/home/user") (fun _ => None) in
  let a := Cli.mkArguments (Some 5) false None false false in
  forallb (fun e => negb (Cli.is_printed e)) (snd (Cli.validate_args os a [])) = true.
Proof.
  intros os a. apply (quiet_unless_verbose os a); reflexivity.
Defined.
